(** * pix-express: the PIX key registry service (src/main.js)

    A shallow embedding of the Express/SQLite service: the format
    validators, the three record handlers (lookup, registration, deletion),
    the [pix_records] table they act on, and the start-up sequence.

    Conventions.
    - A JavaScript string is the list of its UTF-16 code units.
    - A regular expression literal is a term of [regex]; [RegExp.test] on a
      pattern anchored by [^] and [$] is whole-string matching, computed by
      derivatives.
    - A handler either answers at once or issues one statement to the
      database together with the callback that builds the answer; the
      table semantics ([db_get], [db_run]) follows the schema declared in
      the source (AUTOINCREMENT key, [UNIQUE(pix_type, pix_value)]).
    - The handlers are modelled as they run once [authenticateApiKey] has
      called [next()].  The members of a registration body are JSON
      strings (or absent); a string bound to the insertion is stored as
      its UTF-8 text ([to_text]).  The database does not fail for reasons
      of its own (I/O). *)

From Stdlib Require Import List NArith ZArith Bool String Ascii Lia.
Import ListNotations.

Set Implicit Arguments.

(** ** JavaScript strings *)

Module JsString.

Definition code_unit := N.
Definition jsstring := list code_unit.

Definition cu_eqb (a b : code_unit) : bool := N.eqb a b.

Fixpoint eqb (s t : jsstring) : bool :=
  match s, t with
  | [], [] => true
  | a :: s', b :: t' => cu_eqb a b && eqb s' t'
  | _, _ => false
  end.

(** Source text is UTF-8; a literal denotes the code units of the decoded
    text (one to three byte sequences, i.e. the Basic Multilingual Plane,
    which covers every literal of the program). *)
Fixpoint utf8_decode (bs : list N) : jsstring :=
  match bs with
  | [] => []
  | b :: rest =>
      if (b <? 128)%N then b :: utf8_decode rest
      else if (b <? 224)%N then
        match rest with
        | c :: rest' => ((b - 192) * 64 + (c - 128))%N :: utf8_decode rest'
        | [] => []
        end
      else
        match rest with
        | c :: d :: rest' =>
            ((b - 224) * 4096 + (c - 128) * 64 + (d - 128))%N :: utf8_decode rest'
        | _ => []
        end
  end.

Definition lit (s : string) : jsstring :=
  utf8_decode (List.map N_of_ascii (list_ascii_of_string s)).

(** [String.prototype.includes]. *)
Fixpoint starts_with (needle s : jsstring) : bool :=
  match needle, s with
  | [], _ => true
  | a :: n', b :: s' => cu_eqb a b && starts_with n' s'
  | _ :: _, [] => false
  end.

Fixpoint includes (s needle : jsstring) : bool :=
  starts_with needle s ||
  match s with
  | [] => false
  | _ :: s' => includes s' needle
  end.

(** Truthiness of a string value: only the empty string is falsy. *)
Definition nonempty (s : jsstring) : bool :=
  match s with [] => false | _ :: _ => true end.


(** The text the database holds for a bound string.  The string is
    written as UTF-8 and read back: a surrogate pair is kept, a surrogate
    that is not part of a pair comes back as U+FFFD. *)
Definition high_surrogate (c : code_unit) : bool := ((55296 <=? c) && (c <=? 56319))%N.
Definition low_surrogate (c : code_unit) : bool := ((56320 <=? c) && (c <=? 57343))%N.

Fixpoint to_text (s : jsstring) : jsstring :=
  match s with
  | [] => []
  | c :: rest =>
      if high_surrogate c then
        match rest with
        | d :: rest' =>
            if low_surrogate d then c :: d :: to_text rest'
            else 65533%N :: to_text rest
        | [] => [65533%N]
        end
      else if low_surrogate c then 65533%N :: to_text rest
      else c :: to_text rest
  end.

(** A string without unpaired surrogates: its text is the string itself. *)
Definition well_formed (s : jsstring) : Prop := to_text s = s.

End JsString.
Import JsString.

(** ** Regular expressions *)

Module Regex.

Inductive regex : Type :=
| Void : regex
| Eps : regex
| Class (p : code_unit -> bool) : regex
| Cat (r1 r2 : regex) : regex
| Alt (r1 r2 : regex) : regex
| Star (r : regex) : regex.

Fixpoint nullable (r : regex) : bool :=
  match r with
  | Void => false
  | Eps => true
  | Class _ => false
  | Cat r1 r2 => nullable r1 && nullable r2
  | Alt r1 r2 => nullable r1 || nullable r2
  | Star _ => true
  end.

Fixpoint deriv (c : code_unit) (r : regex) : regex :=
  match r with
  | Void => Void
  | Eps => Void
  | Class p => if p c then Eps else Void
  | Cat r1 r2 =>
      if nullable r1
      then Alt (Cat (deriv c r1) r2) (deriv c r2)
      else Cat (deriv c r1) r2
  | Alt r1 r2 => Alt (deriv c r1) (deriv c r2)
  | Star r1 => Cat (deriv c r1) (Star r1)
  end.

Fixpoint matches (r : regex) (s : jsstring) : bool :=
  match s with
  | [] => nullable r
  | c :: s' => matches (deriv c r) s'
  end.

(** [x+] and [x{n}]. *)
Definition plus (r : regex) : regex := Cat r (Star r).

Fixpoint times (n : nat) (r : regex) : regex :=
  match n with
  | O => Eps
  | S n' => Cat r (times n' r)
  end.

Definition chr (a : code_unit) : regex := Class (fun c => cu_eqb c a).

(** [\d]: the ten ASCII digits. *)
Definition digit (c : code_unit) : bool := ((48 <=? c) && (c <=? 57))%N.

(** [\s]: ECMAScript WhiteSpace and LineTerminator code points. *)
Definition white_space (c : code_unit) : bool :=
  (((9 <=? c) && (c <=? 13)) || (c =? 32) || (c =? 160) || (c =? 5760)
   || ((8192 <=? c) && (c <=? 8202)) || (c =? 8232) || (c =? 8233)
   || (c =? 8239) || (c =? 8287) || (c =? 12288) || (c =? 65279))%N.

(** The strings a pattern denotes; [matches] decides it ([matches_lang]). *)
Inductive lang : regex -> jsstring -> Prop :=
| lang_Eps : lang Eps []
| lang_Class p c : p c = true -> lang (Class p) [c]
| lang_Cat r1 r2 s1 s2 : lang r1 s1 -> lang r2 s2 -> lang (Cat r1 r2) (s1 ++ s2)
| lang_Alt_l r1 r2 s : lang r1 s -> lang (Alt r1 r2) s
| lang_Alt_r r1 r2 s : lang r2 s -> lang (Alt r1 r2) s
| lang_Star_nil r : lang (Star r) []
| lang_Star_app r s1 s2 : lang r s1 -> lang (Star r) s2 -> lang (Star r) (s1 ++ s2).

(** [/^r$/.test(s)] for a string argument. *)
Definition test (r : regex) (s : jsstring) : bool := matches r s.

End Regex.
Import Regex.

(** ** Validators (main.js, lines 78-81) *)

(** [[^\s@]] *)
Definition not_space_at (c : code_unit) : bool :=
  negb (white_space c || cu_eqb c 64%N).

(** [/^[^\s@]+@[^\s@]+\.[^\s@]+$/] *)
Definition re_email : regex :=
  Cat (plus (Class not_space_at))
      (Cat (chr 64%N)
           (Cat (plus (Class not_space_at))
                (Cat (chr 46%N) (plus (Class not_space_at))))).

Definition validateEmail (email : jsstring) : bool := test re_email email.
Definition validatePhone (phone : jsstring) : bool := test (times 11 (Class digit)) phone.
Definition validateCPF (cpf : jsstring) : bool := test (times 11 (Class digit)) cpf.
Definition validateCNPJ (cnpj : jsstring) : bool := test (times 14 (Class digit)) cnpj.

(** A non-empty run of code units other than white space and [@]. *)
Definition email_part (s : jsstring) : Prop :=
  nonempty s = true /\ forallb not_space_at s = true.

(** ** Requests, responses and the table *)

(** The JSON body of [POST /register] as the handler reads it: two nested
    objects whose members are strings.  [None] is a member that is absent
    ([undefined] after destructuring).  Members of another JSON type (a
    number, an array) are not represented: the statements below about
    what a registration stores are about bodies of strings. *)
Module Request.

Record account_info : Type := {
  nome : option jsstring;
  cpf : option jsstring;
  banco : option jsstring;
  agencia : option jsstring;
  conta : option jsstring
}.

Record pix_info : Type := {
  type : option jsstring;
  value : option jsstring
}.

Record body : Type := {
  accountInfo : option account_info;
  pixInfo : option pix_info
}.

(** [!x] is [negb (truthy x)]: [undefined] and [""] are falsy. *)
Definition truthy (x : option jsstring) : bool :=
  match x with
  | Some s => nonempty s
  | None => false
  end.

(** [ToString], applied when a value reaches a regular expression, a
    template literal or a statement parameter. *)
Definition to_string (x : option jsstring) : jsstring :=
  match x with
  | Some s => s
  | None => lit "undefined"
  end.

End Request.

(** JSON values of response bodies. *)
#[warnings="-register-all"]
Inductive json : Type :=
| JNum (n : Z)
| JStr (s : jsstring)
| JObj (members : list (string * json)).

Definition member (k : string) (v : json) : string * json := (k, v).

Record response : Type := {
  status : Z;
  body : json
}.

(** [res.status(code).json(b)]; [res.json(b)] alone answers 200. *)
Definition reply (code : Z) (b : json) : response :=
  {| status := code; body := b |}.

Definition error_body (msg : jsstring) : json := JObj [member "error" (JStr msg)].

(** The [pix_records] table (main.js, lines 29-41). *)
Module Table.

Record row : Type := {
  id : Z;
  pix_type : jsstring;
  pix_value : jsstring;
  nome : jsstring;
  cpf : jsstring;
  banco : jsstring;
  agencia : jsstring;
  conta : jsstring;
  created_at : jsstring
}.

(** [seq] is the largest key handed out so far (AUTOINCREMENT never
    reuses a key). *)
Record t : Type := {
  rows : list row;
  seq : Z
}.

Definition empty : t := {| rows := []; seq := 0 |}.

(** The key AUTOINCREMENT assigns: one more than the largest key ever
    used in the table. *)
Definition next_id (tbl : t) : Z :=
  (fold_right (fun r m => Z.max (id r) m) (seq tbl) (rows tbl) + 1)%Z.

Definition key (r : row) : jsstring * jsstring := (pix_type r, pix_value r).

(** [WHERE pix_type = ? AND pix_value = ?] *)
Definition has_key (type value : jsstring) (r : row) : bool :=
  JsString.eqb (pix_type r) type && JsString.eqb (pix_value r) value.

(** [UNIQUE(pix_type, pix_value)] against the parameters of an insertion:
    the index compares the stored text. *)
Definition same_text_key (type value : jsstring) (r : row) : bool :=
  JsString.eqb (to_text (pix_type r)) (to_text type)
  && JsString.eqb (to_text (pix_value r)) (to_text value).

End Table.

(** The statements the handlers send. *)
Inductive query : Type :=
| SelectPix (type value : jsstring).

Inductive command : Type :=
| InsertPix (type value nome cpf banco agencia conta : jsstring)
| DeletePix (type value : jsstring).

(** What a [db.run] callback sees as [this]. *)
Record run_info : Type := {
  lastID : Z;
  changes : Z
}.

(** The message SQLite gives when [UNIQUE(pix_type, pix_value)] rejects
    an insertion. *)
Definition unique_violation : jsstring :=
  lit "SQLITE_CONSTRAINT: UNIQUE constraint failed: pix_records.pix_type, pix_records.pix_value".

(** [db.get]: the first row selected, if any. *)
Definition db_get (q : query) (tbl : Table.t) : option jsstring * option Table.row :=
  match q with
  | SelectPix type value => (None, find (Table.has_key type value) (Table.rows tbl))
  end.

(** [db.run]: [now] is the value of CURRENT_TIMESTAMP.  The parameters of
    the insertion come from the JSON body and are stored as their text;
    those of the selection and of the deletion are path parameters, which
    URL decoding leaves well formed, and are compared as they are. *)
Definition db_run (now : jsstring) (c : command) (tbl : Table.t)
  : option jsstring * run_info * Table.t :=
  match c with
  | InsertPix type value nome cpf banco agencia conta =>
      if existsb (Table.same_text_key type value) (Table.rows tbl)
      then (Some unique_violation, {| lastID := 0; changes := 0 |}, tbl)
      else
        let i := Table.next_id tbl in
        let r := {| Table.id := i;
                    Table.pix_type := to_text type; Table.pix_value := to_text value;
                    Table.nome := to_text nome; Table.cpf := to_text cpf;
                    Table.banco := to_text banco; Table.agencia := to_text agencia;
                    Table.conta := to_text conta;
                    Table.created_at := now |} in
        (None, {| lastID := i; changes := 1 |},
         {| Table.rows := Table.rows tbl ++ [r]; Table.seq := i |})
  | DeletePix type value =>
      let gone := filter (Table.has_key type value) (Table.rows tbl) in
      let kept := filter (fun r => negb (Table.has_key type value r)) (Table.rows tbl) in
      (None, {| lastID := 0; changes := Z.of_nat (List.length gone) |},
       {| Table.rows := kept; Table.seq := Table.seq tbl |})
  end.

(** A handler answers at once, or sends one statement and answers from its
    callback [(err, row)] or [(err)] with [this]. *)
Inductive handler : Type :=
| Respond (r : response)
| DbGet (sql : query) (callback : option jsstring -> option Table.row -> response)
| DbRun (sql : command) (callback : option jsstring -> run_info -> response).

Definition run (now : jsstring) (h : handler) (tbl : Table.t) : response * Table.t :=
  match h with
  | Respond r => (r, tbl)
  | DbGet sql callback =>
      let '(err, row) := db_get sql tbl in (callback err row, tbl)
  | DbRun sql callback =>
      let '(err, this, tbl') := db_run now sql tbl in (callback err this, tbl')
  end.

(** A handler that never reaches the database. *)
Definition no_store_access (h : handler) : Prop :=
  match h with
  | Respond _ => True
  | _ => False
  end.

(** ** The handlers (main.js, lines 116-248) *)

Section Handlers.

(** [validate] of the [uuid] package, imported at line 3: a predicate on
    strings supplied from outside this program. *)
Variable validateUUID : jsstring -> bool.

(** [GET /record/:type/:value] *)
Definition get_record_cb (err : option jsstring) (row : option Table.row) : response :=
  match err with
  | Some message => reply 500 (error_body message)
  | None =>
      match row with
      | None => reply 404 (error_body (lit "Registro não encontrado"))
      | Some row =>
          reply 200 (JObj [
            member "id" (JNum (Table.id row));
            member "accountInfo" (JObj [
              member "nome" (JStr (Table.nome row));
              member "cpf" (JStr (Table.cpf row));
              member "banco" (JStr (Table.banco row));
              member "agencia" (JStr (Table.agencia row));
              member "conta" (JStr (Table.conta row))]);
            member "pixInfo" (JObj [
              member "type" (JStr (Table.pix_type row));
              member "value" (JStr (Table.pix_value row))]);
            member "created_at" (JStr (Table.created_at row))])
      end
  end.

Definition get_record (type value : jsstring) : handler :=
  DbGet (SelectPix type value) get_record_cb.

(** [POST /register]: the callback of the insertion (lines 204-218). *)
Definition register_cb (type value nome cpf banco agencia conta : jsstring)
  (err : option jsstring) (this : run_info) : response :=
  match err with
  | Some message =>
      if includes message (lit "UNIQUE constraint failed")
      then reply 409 (error_body (lit "Chave PIX (" ++ type ++ lit ") já registrada"))
      else reply 500 (error_body message)
  | None =>
      reply 201 (JObj [
        member "id" (JNum (lastID this));
        member "accountInfo" (JObj [
          member "nome" (JStr nome);
          member "cpf" (JStr cpf);
          member "banco" (JStr banco);
          member "agencia" (JStr agencia);
          member "conta" (JStr conta)]);
        member "pixInfo" (JObj [
          member "type" (JStr type);
          member "value" (JStr value)]);
        member "message" (JStr (lit "Registro criado com sucesso"))])
  end.

(** The [switch (type)] of lines 172-190: [None] is the [default] branch,
    [Some b] the value left in [isValidPix]. *)
Definition switch_type (type value : jsstring) : option bool :=
  if JsString.eqb type (lit "email") then Some (validateEmail value)
  else if JsString.eqb type (lit "phone") then Some (validatePhone value)
  else if JsString.eqb type (lit "cpf") then Some (validateCPF value)
  else if JsString.eqb type (lit "cnpj") then Some (validateCNPJ value)
  else if JsString.eqb type (lit "uuid") then Some (validateUUID value)
  else None.

Definition bad_request (msg : jsstring) : handler :=
  Respond (reply 400 (error_body msg)).

Definition post_register (body : Request.body) : handler :=
  match Request.accountInfo body, Request.pixInfo body with
  | Some accountInfo, Some pixInfo =>
      let nome := Request.nome accountInfo in
      let cpf := Request.cpf accountInfo in
      let banco := Request.banco accountInfo in
      let agencia := Request.agencia accountInfo in
      let conta := Request.conta accountInfo in
      let type := Request.type pixInfo in
      let value := Request.value pixInfo in
      if negb (Request.truthy nome) then bad_request (lit "Nome é obrigatório")
      else if negb (Request.truthy cpf) then bad_request (lit "CPF é obrigatório")
      else if negb (Request.truthy banco) then bad_request (lit "Banco é obrigatório")
      else if negb (Request.truthy agencia) then bad_request (lit "Agência é obrigatória")
      else if negb (Request.truthy conta) then bad_request (lit "Conta é obrigatória")
      else if negb (Request.truthy type) then bad_request (lit "Tipo de chave PIX é obrigatório")
      else if negb (Request.truthy value) then bad_request (lit "Valor da chave PIX é obrigatório")
      else if negb (validateCPF (Request.to_string cpf))
      then bad_request (lit "CPF do titular é inválido. Deve ter 11 dígitos.")
      else
        match switch_type (Request.to_string type) (Request.to_string value) with
        | None =>
            bad_request (lit "Tipo de chave PIX inválido. Use: email, phone, cpf, cnpj, uuid")
        | Some isValidPix =>
            if negb isValidPix
            then bad_request (lit "Valor da chave PIX (" ++ Request.to_string type
                                ++ lit ") é inválido")
            else
              DbRun (InsertPix (Request.to_string type) (Request.to_string value)
                               (Request.to_string nome) (Request.to_string cpf)
                               (Request.to_string banco) (Request.to_string agencia)
                               (Request.to_string conta))
                    (register_cb (Request.to_string type) (Request.to_string value)
                                 (Request.to_string nome) (Request.to_string cpf)
                                 (Request.to_string banco) (Request.to_string agencia)
                                 (Request.to_string conta))
        end
  | _, _ =>
      bad_request
        (lit "Estrutura de dados inválida. Use {accountInfo: {...}, pixInfo: {...}}")
  end.

(** [DELETE /record/:type/:value] *)
Definition validTypes : list jsstring :=
  [lit "email"; lit "phone"; lit "cpf"; lit "cnpj"; lit "uuid"].

(** [Array.prototype.includes] on an array of strings. *)
Definition array_includes (xs : list jsstring) (x : jsstring) : bool :=
  existsb (JsString.eqb x) xs.

Definition delete_record_cb (err : option jsstring) (this : run_info) : response :=
  match err with
  | Some message => reply 500 (error_body message)
  | None =>
      if (changes this =? 0)%Z
      then reply 404 (error_body (lit "Registro não encontrado"))
      else reply 200 (JObj [
             member "message" (JStr (lit "Registro excluído com sucesso"));
             member "deletedCount" (JNum (changes this))])
  end.

Definition delete_record (type value : jsstring) : handler :=
  if negb (array_includes validTypes type)
  then bad_request (lit "Tipo de chave PIX inválido")
  else DbRun (DeletePix type value) delete_record_cb.

(** The three record operations as requests, and the states of the table
    they can produce from the empty one. *)
Inductive request : Type :=
| Lookup (type value : jsstring)
| Register (body : Request.body)
| Delete (type value : jsstring).

Definition serve (rq : request) : handler :=
  match rq with
  | Lookup type value => get_record type value
  | Register body => post_register body
  | Delete type value => delete_record type value
  end.

Inductive reachable : Table.t -> Prop :=
| reach_empty : reachable Table.empty
| reach_serve now rq tbl :
    reachable tbl -> reachable (snd (run now (serve rq) tbl)).

End Handlers.

(** ** The validation sequence, as a list of checks

    The order of section 4.4 of the specification: each entry pairs the
    condition that must hold with the message answered when it does not.
    [first_failure] is the message of the first entry whose condition
    fails. *)

Section Checks.

Variable validateUUID : jsstring -> bool.

(** The fixed table from key type to format validator. *)
Definition validators : list (jsstring * (jsstring -> bool)) :=
  [(lit "email", validateEmail); (lit "phone", validatePhone);
   (lit "cpf", validateCPF); (lit "cnpj", validateCNPJ);
   (lit "uuid", validateUUID)].

Fixpoint validator_of (tbl : list (jsstring * (jsstring -> bool))) (type : jsstring)
  : option (jsstring -> bool) :=
  match tbl with
  | [] => None
  | (k, f) :: tbl' => if JsString.eqb type k then Some f else validator_of tbl' type
  end.

Definition member_of {A} (get : A -> option jsstring) (o : option A) : option jsstring :=
  match o with
  | Some x => get x
  | None => None
  end.

Definition present {A} (o : option A) : bool :=
  match o with Some _ => true | None => false end.

(** The members of the body after destructuring and [ToString]. *)
Definition account_member (get : Request.account_info -> option jsstring)
  (body : Request.body) : jsstring :=
  Request.to_string (member_of get (Request.accountInfo body)).

Definition pix_member (get : Request.pix_info -> option jsstring)
  (body : Request.body) : jsstring :=
  Request.to_string (member_of get (Request.pixInfo body)).

Definition validation_checks (body : Request.body) : list (bool * jsstring) :=
  let a := Request.accountInfo body in
  let p := Request.pixInfo body in
  let type := Request.to_string (member_of Request.type p) in
  let value := Request.to_string (member_of Request.value p) in
  [ (present a && present p,
     lit "Estrutura de dados inválida. Use {accountInfo: {...}, pixInfo: {...}}");
    (Request.truthy (member_of Request.nome a), lit "Nome é obrigatório");
    (Request.truthy (member_of Request.cpf a), lit "CPF é obrigatório");
    (Request.truthy (member_of Request.banco a), lit "Banco é obrigatório");
    (Request.truthy (member_of Request.agencia a), lit "Agência é obrigatória");
    (Request.truthy (member_of Request.conta a), lit "Conta é obrigatória");
    (Request.truthy (member_of Request.type p), lit "Tipo de chave PIX é obrigatório");
    (Request.truthy (member_of Request.value p), lit "Valor da chave PIX é obrigatório");
    (validateCPF (Request.to_string (member_of Request.cpf a)),
     lit "CPF do titular é inválido. Deve ter 11 dígitos.");
    (present (validator_of validators type),
     lit "Tipo de chave PIX inválido. Use: email, phone, cpf, cnpj, uuid");
    (match validator_of validators type with
     | Some validate => validate value
     | None => false
     end,
     lit "Valor da chave PIX (" ++ type ++ lit ") é inválido") ].

Definition first_failure (body : Request.body) : option jsstring :=
  option_map snd (find (fun c => negb (fst c)) (validation_checks body)).

(** What [post_register] does, read off the list of checks. *)
Definition expected_handler (body : Request.body) : handler :=
  match first_failure body with
  | Some msg => bad_request msg
  | None =>
      DbRun (InsertPix (pix_member Request.type body) (pix_member Request.value body)
                       (account_member Request.nome body) (account_member Request.cpf body)
                       (account_member Request.banco body)
                       (account_member Request.agencia body)
                       (account_member Request.conta body))
            (register_cb (pix_member Request.type body) (pix_member Request.value body)
                         (account_member Request.nome body) (account_member Request.cpf body)
                         (account_member Request.banco body)
                         (account_member Request.agencia body)
                         (account_member Request.conta body))
  end.

(** The body in which every member is present. *)
Definition registration (nome cpf banco agencia conta type value : jsstring)
  : Request.body :=
  {| Request.accountInfo :=
       Some {| Request.nome := Some nome; Request.cpf := Some cpf;
               Request.banco := Some banco; Request.agencia := Some agencia;
               Request.conta := Some conta |};
     Request.pixInfo :=
       Some {| Request.type := Some type; Request.value := Some value |} |}.

End Checks.

(** ** Start-up (main.js, lines 10-75)

    The callback of the database constructor, as the sequence of actions
    it performs in program order.  Inside [db.serialize] the statements
    are executed in the order they are issued. *)

Inductive startup_action : Type :=
| ConsoleError (msg : jsstring)
| ConsoleLog (msg : jsstring)
| RunCreateBanks
| RunCreatePixRecords
| RunSeedBank (api_key : jsstring)
| ProcessExit (code : Z).

Definition bootstrap (err : option jsstring) (X_API_KEY : option jsstring)
  : list startup_action :=
  match err with
  | Some message => [ConsoleError (lit "Erro ao conectar ao banco: " ++ message)]
  | None =>
      ConsoleLog (lit "Conectado ao SQLite")
      :: RunCreateBanks
      :: RunCreatePixRecords
      :: (if negb (Request.truthy X_API_KEY)
          then [ConsoleError (lit "Erro: X_API_KEY não definida no .env");
                ProcessExit 1]
          else [RunSeedBank (Request.to_string X_API_KEY)])
  end.

(** The database file: a table is [None] until it is created. *)
Record bank : Type := {
  bank_id : Z;
  name : jsstring;
  api_key : jsstring
}.

Record database : Type := {
  banks : option (list bank);
  pix_records : option Table.t
}.

Definition fresh : database := {| banks := None; pix_records := None |}.

Definition is_statement (a : startup_action) : bool :=
  match a with
  | RunCreateBanks | RunCreatePixRecords | RunSeedBank _ => true
  | _ => false
  end.

Definition next_bank_id (bs : list bank) : Z :=
  fold_right (fun b m => Z.max (bank_id b) m) 0%Z bs + 1.

(** The effect of one action on the database: CREATE TABLE IF NOT EXISTS
    keeps an existing table, and the seed row is inserted only when no
    bank holds the key. *)
Definition exec (a : startup_action) (db : database) : database :=
  match a with
  | RunCreateBanks =>
      {| banks := Some (match banks db with Some bs => bs | None => [] end);
         pix_records := pix_records db |}
  | RunCreatePixRecords =>
      {| banks := banks db;
         pix_records :=
           Some (match pix_records db with Some t => t | None => Table.empty end) |}
  | RunSeedBank k =>
      match banks db with
      | Some bs =>
          if existsb (fun b => JsString.eqb (api_key b) k) bs then db
          else {| banks := Some (bs ++ [{| bank_id := next_bank_id bs;
                                           name := lit "Banco Exemplo";
                                           api_key := k |}]);
                  pix_records := pix_records db |}
      | None => db
      end
  | _ => db
  end.

(** The actions performed up to [process.exit], and the exit code. *)
Fixpoint before_exit (actions : list startup_action) : list startup_action :=
  match actions with
  | [] => []
  | ProcessExit _ :: _ => []
  | a :: rest => a :: before_exit rest
  end.

Fixpoint exit_code (actions : list startup_action) : option Z :=
  match actions with
  | [] => None
  | ProcessExit code :: _ => Some code
  | _ :: rest => exit_code rest
  end.

(** The statements handed to [db.run] before the process exits. *)
Definition issued (actions : list startup_action) : list startup_action :=
  filter is_statement (before_exit actions).

(** [db.run] only queues a statement: it is executed in a later turn of
    the event loop.  [process.exit] ends the process in the turn that
    queued them, so when the callback exits none of its statements is
    executed; otherwise they are executed in the order issued. *)
Definition executed (actions : list startup_action) : list startup_action :=
  match exit_code actions with
  | Some _ => []
  | None => issued actions
  end.

(** The database once the first [n] of the executed statements have run. *)
Definition startup (n : nat) (actions : list startup_action) (db : database) : database :=
  fold_left (fun d a => exec a d) (firstn n (executed actions)) db.

(** ** A sample run, used to exercise the statements below *)

Module Sample.

Definition uuid_never (_ : jsstring) : bool := false.

Definition at_noon : jsstring := lit "2024-05-01 12:00:00".
Definition later : jsstring := lit "2024-05-01 12:00:07".

Definition ana : Request.body :=
  registration (lit "Ana") (lit "12345678901") (lit "001") (lit "0001") (lit "12345-6")
               (lit "email") (lit "ana@example.com").

Definition ana_row : Table.row :=
  {| Table.id := 1; Table.pix_type := lit "email";
     Table.pix_value := lit "ana@example.com";
     Table.nome := lit "Ana"; Table.cpf := lit "12345678901";
     Table.banco := lit "001"; Table.agencia := lit "0001";
     Table.conta := lit "12345-6"; Table.created_at := at_noon |}.

Definition one_row : Table.t := {| Table.rows := [ana_row]; Table.seq := 1 |}.

(** The request of section 8 of the specification whose key is not an
    e-mail address. *)
Definition not_an_email : Request.body :=
  registration (lit "A") (lit "12345678901") (lit "B") (lit "1") (lit "2")
               (lit "email") (lit "not-an-email").

End Sample.

(** ** Authentication and routing (main.js, lines 84-113 and 251-253)

    A request is first matched against the routes; the middleware mounted
    on [/record] and [/register] runs before the handlers of those paths.
    A program over the database file issues its statements against the
    [banks] table and the [pix_records] table; a statement against a table
    that does not exist yet fails with SQLite's message and changes
    nothing. *)

Definition no_such_table (table : jsstring) : jsstring :=
  lit "SQLITE_ERROR: no such table: " ++ table.

Inductive program : Type :=
| Done (r : response)
| BanksGet (apiKey : jsstring) (callback : option jsstring -> option Z -> program)
| Records (h : handler).

(** [authenticateApiKey]: [next] receives the bank id stored in
    [req.bankId]. *)
Definition authenticateApiKey (apiKey : option jsstring) (next : Z -> program) : program :=
  if negb (Request.truthy apiKey)
  then Done (reply 401 (error_body (lit "API Key não fornecida")))
  else
    BanksGet (Request.to_string apiKey)
      (fun err bank =>
         match err with
         | Some _ => Done (reply 500 (error_body (lit "Erro interno na autenticação")))
         | None =>
             match bank with
             | None => Done (reply 403 (error_body (lit "API Key inválida")))
             | Some id => next id
             end
         end).

(** [SELECT id FROM banks WHERE api_key = ?] through [db.get]. *)
Definition banks_get (apiKey : jsstring) (db : database) : option jsstring * option Z :=
  match banks db with
  | None => (Some (no_such_table (lit "banks")), None)
  | Some bs =>
      (None, option_map bank_id (find (fun b => JsString.eqb (api_key b) apiKey) bs))
  end.

(** A record handler on the database file. *)
Definition run_handler (now : jsstring) (h : handler) (db : database)
  : response * database :=
  match pix_records db with
  | Some tbl =>
      let '(r, tbl') := run now h tbl in
      (r, {| banks := banks db; pix_records := Some tbl' |})
  | None =>
      (match h with
       | Respond r => r
       | DbGet _ callback => callback (Some (no_such_table (lit "pix_records"))) None
       | DbRun _ callback =>
           callback (Some (no_such_table (lit "pix_records")))
                    {| lastID := 0; changes := 0 |}
       end, db)
  end.

Fixpoint run_program (now : jsstring) (p : program) (db : database)
  : response * database :=
  match p with
  | Done r => (r, db)
  | BanksGet apiKey callback =>
      let '(err, bank) := banks_get apiKey db in
      run_program now (callback err bank) db
  | Records h => run_handler now h db
  end.

(** [GET /status]; [timestamp] is [new Date().toISOString()]. *)
Definition get_status (timestamp : jsstring) : handler :=
  Respond (reply 200 (JObj [
    member "status" (JStr (lit "API funcionando"));
    member "timestamp" (JStr timestamp)])).

(** The four routes, with their path parameters or body. *)
Inductive route : Type :=
| GetStatus
| GetRecord (type value : jsstring)
| PostRegister (body : Request.body)
| DeleteRecord (type value : jsstring).

Record http_request : Type := {
  x_api_key : option jsstring;
  target : route
}.

(** The paths under [/record] and [/register]. *)
Definition behind_auth (r : route) : bool :=
  match r with
  | GetStatus => false
  | GetRecord _ _ | PostRegister _ | DeleteRecord _ _ => true
  end.

Section App.

Variable validateUUID : jsstring -> bool.

Definition route_handler (timestamp : jsstring) (r : route) : handler :=
  match r with
  | GetStatus => get_status timestamp
  | GetRecord type value => get_record type value
  | PostRegister body => post_register validateUUID body
  | DeleteRecord type value => delete_record type value
  end.

Definition app (timestamp : jsstring) (rq : http_request) : program :=
  if behind_auth (target rq)
  then authenticateApiKey (x_api_key rq)
         (fun _ => Records (route_handler timestamp (target rq)))
  else Records (route_handler timestamp (target rq)).

(** What the registration checks leave in a row inserted from a body of
    strings: the columns are non-empty, [cpf] has eleven digits, the type
    is a recognized one, and the value is the text of a string the
    validator of that type accepted; type and value are well formed. *)
Definition row_valid (r : Table.row) : Prop :=
  nonempty (Table.nome r) = true /\ nonempty (Table.banco r) = true /\
  nonempty (Table.agencia r) = true /\ nonempty (Table.conta r) = true /\
  nonempty (Table.pix_value r) = true /\
  validateCPF (Table.cpf r) = true /\
  In (Table.pix_type r) validTypes /\
  (exists v, Table.pix_value r = to_text v /\
             switch_type validateUUID (Table.pix_type r) v = Some true) /\
  well_formed (Table.pix_type r) /\ well_formed (Table.pix_value r).

End App.

(** The row [get_record] reshapes into its 200 answer. *)
Definition found (r : Table.row) : response := get_record_cb None (Some r).

(** The primary key: pairwise different, positive, and never above
    [seq]. *)
Definition ids_ok (tbl : Table.t) : Prop :=
  NoDup (map Table.id (Table.rows tbl)) /\
  Forall (fun r => (0 < Table.id r <= Table.seq tbl)%Z) (Table.rows tbl) /\
  (0 <= Table.seq tbl)%Z.

(** The table after [DELETE FROM pix_records WHERE pix_type = ? AND
    pix_value = ?]. *)
Definition without (type value : jsstring) (tbl : Table.t) : Table.t :=
  {| Table.rows := filter (fun r => negb (Table.has_key type value r)) (Table.rows tbl);
     Table.seq := Table.seq tbl |}.

(** The [api_key] column of [banks] is UNIQUE. *)
Definition api_keys_unique (db : database) : Prop :=
  match banks db with
  | Some bs => NoDup (map api_key bs)
  | None => True
  end.

Module Demo.

Definition key : jsstring := lit "k-123".

Definition seeded : database :=
  {| banks := Some [{| bank_id := 1; name := lit "Banco Exemplo"; api_key := key |}];
     pix_records := Some Sample.one_row |}.

Definition bob : Request.body :=
  registration (lit "Bob") (lit "98765432100") (lit "237") (lit "0002") (lit "99-1")
               (lit "cnpj") (lit "12345678000199").

End Demo.

(** ** Facts about the matcher *)

Lemma matches_Void s : matches Void s = false.
Proof. induction s; simpl; auto. Qed.

Lemma matches_Alt s : forall r1 r2,
  matches (Alt r1 r2) s = matches r1 s || matches r2 s.
Proof. induction s; intros; simpl; auto. Qed.

Lemma matches_Cat_Void r s : matches (Cat Void r) s = false.
Proof. induction s; simpl; auto. Qed.

Lemma matches_Cat_Eps r s : matches (Cat Eps r) s = matches r s.
Proof.
  destruct s as [|c s]; simpl; auto.
  now rewrite matches_Alt, matches_Cat_Void.
Qed.

Lemma matches_Cat_Class p r c s :
  matches (Cat (Class p) r) (c :: s) = p c && matches r s.
Proof.
  simpl. destruct (p c); simpl.
  - apply matches_Cat_Eps.
  - apply matches_Cat_Void.
Qed.

Lemma lang_Cat_inv r1 r2 w :
  lang (Cat r1 r2) w -> exists s1 s2, w = s1 ++ s2 /\ lang r1 s1 /\ lang r2 s2.
Proof. inversion 1; subst; eauto. Qed.

Lemma lang_Alt_inv r1 r2 w : lang (Alt r1 r2) w -> lang r1 w \/ lang r2 w.
Proof. inversion 1; subst; auto. Qed.

Lemma lang_Class_inv p w : lang (Class p) w -> exists c, w = [c] /\ p c = true.
Proof. inversion 1; subst; eauto. Qed.

Lemma nullable_lang r : nullable r = true <-> lang r [].
Proof.
  induction r as [| | p | r1 IH1 r2 IH2 | r1 IH1 r2 IH2 | r IH]; simpl.
  - split; [discriminate | inversion 1].
  - split; [constructor | reflexivity].
  - split; [discriminate | inversion 1].
  - rewrite andb_true_iff, IH1, IH2. split.
    + intros [H1 H2]. apply (lang_Cat H1 H2).
    + intros H. apply lang_Cat_inv in H. destruct H as (s1 & s2 & E & H1 & H2).
      symmetry in E. apply app_eq_nil in E. destruct E; subst. auto.
  - rewrite orb_true_iff, IH1, IH2. split.
    + intros [H|H]; [apply lang_Alt_l | apply lang_Alt_r]; assumption.
    + apply lang_Alt_inv.
  - split; [constructor | reflexivity].
Qed.

Lemma lang_Star_cons c r s :
  (forall s', lang (deriv c r) s' <-> lang r (c :: s')) ->
  lang (Star r) (c :: s) -> lang (Cat (deriv c r) (Star r)) s.
Proof.
  intros IH H.
  remember (Star r) as r' eqn:Er. remember (c :: s) as w eqn:Ew.
  revert s Ew.
  induction H as [| | | | | |r0 s1 s2 H1 _ H2 IH2]; try discriminate.
  injection Er as ->. intros s Ew.
  destruct s1 as [|c' s1]; simpl in Ew.
  - apply IH2; auto.
  - injection Ew as -> <-. apply lang_Cat; [apply IH|]; assumption.
Qed.

Lemma deriv_lang c r : forall s, lang (deriv c r) s <-> lang r (c :: s).
Proof.
  induction r as [| | p | r1 IH1 r2 IH2 | r1 IH1 r2 IH2 | r IH]; intros s; simpl.
  - split; inversion 1.
  - split; inversion 1.
  - destruct (p c) eqn:E; split; intros H.
    + inversion H; subst. now constructor.
    + apply lang_Class_inv in H. destruct H as (c' & Ew & _).
      injection Ew as -> ->. constructor.
    + inversion H.
    + apply lang_Class_inv in H. destruct H as (c' & Ew & Hp).
      injection Ew as -> ->. congruence.
  - assert (lang (Cat (deriv c r1) r2) s -> lang (Cat r1 r2) (c :: s)) as Hl.
    { intros H. apply lang_Cat_inv in H. destruct H as (s1 & s2 & -> & H1 & H2).
      apply IH1 in H1. apply (lang_Cat H1 H2). }
    assert (lang (Cat r1 r2) (c :: s) ->
            lang (Cat (deriv c r1) r2) s \/ (lang r1 [] /\ lang (deriv c r2) s)) as Hr.
    { intros H. apply lang_Cat_inv in H. destruct H as (s1 & s2 & E & H1 & H2).
      destruct s1 as [|c' s1]; simpl in E.
      - subst. right. split; [assumption | now apply IH2].
      - injection E as <- ->. left. apply lang_Cat; [now apply IH1 | assumption]. }
    destruct (nullable r1) eqn:N; split.
    + intros H. apply lang_Alt_inv in H. destruct H as [H|H]; [auto|].
      apply (@lang_Cat r1 r2 [] (c :: s)); [now apply nullable_lang | now apply IH2].
    + intros H. apply Hr in H. destruct H as [H|[_ H]];
        [now apply lang_Alt_l | now apply lang_Alt_r].
    + exact Hl.
    + intros H. apply Hr in H. destruct H as [H|[H _]]; [assumption|].
      apply nullable_lang in H. congruence.
  - split; intros H.
    + apply lang_Alt_inv in H. destruct H as [H|H];
        [apply lang_Alt_l; now apply IH1 | apply lang_Alt_r; now apply IH2].
    + apply lang_Alt_inv in H. destruct H as [H|H];
        [apply lang_Alt_l; now apply IH1 | apply lang_Alt_r; now apply IH2].
  - split.
    + intros H. apply lang_Cat_inv in H. destruct H as (s1 & s2 & -> & H1 & H2).
      apply IH in H1. apply (lang_Star_app H1 H2).
    + now apply lang_Star_cons.
Qed.

(** The matcher decides membership in the language of the pattern. *)
Lemma matches_lang s : forall r, matches r s = true <-> lang r s.
Proof.
  induction s as [|c s IH]; intros r; simpl.
  - apply nullable_lang.
  - rewrite IH. apply deriv_lang.
Qed.

Lemma lang_Star_Class p s : lang (Star (Class p)) s <-> forallb p s = true.
Proof.
  split.
  - intros H. remember (Star (Class p)) as r eqn:Er.
    induction H as [| | | | | |r0 s1 s2 H1 _ H2 IH2]; try discriminate.
    + reflexivity.
    + injection Er as ->. apply lang_Class_inv in H1. destruct H1 as (c & -> & Hc).
      simpl. rewrite Hc. auto.
  - induction s as [|c s IH]; simpl; [constructor|].
    rewrite andb_true_iff. intros [Hc Hs].
    apply (@lang_Star_app (Class p) [c] s); [now constructor | auto].
Qed.

Lemma lang_plus_Class p s :
  lang (plus (Class p)) s <-> nonempty s = true /\ forallb p s = true.
Proof.
  unfold plus. split.
  - intros H. apply lang_Cat_inv in H. destruct H as (s1 & s2 & -> & H1 & H2).
    apply lang_Class_inv in H1. destruct H1 as (c & -> & Hc).
    apply lang_Star_Class in H2. simpl. rewrite Hc, H2. auto.
  - destruct s as [|c s]; simpl; [intros [? _]; discriminate|].
    rewrite andb_true_iff. intros [_ [Hc Hs]].
    apply (@lang_Cat (Class p) (Star (Class p)) [c] s);
      [now constructor | now apply lang_Star_Class].
Qed.

Lemma lang_chr a s : lang (chr a) s <-> s = [a].
Proof.
  unfold chr. split.
  - intros H. apply lang_Class_inv in H. destruct H as (c & -> & Hc).
    apply N.eqb_eq in Hc. now subst.
  - intros ->. constructor. apply N.eqb_refl.
Qed.

(** The strings [validateEmail] accepts: local part, [@], domain, a dot
    and a last part, where each part is a non-empty run free of white
    space and [@] (the domain and the last part may hold further dots). *)
Lemma validateEmail_spec s :
  validateEmail s = true <->
  exists l d t, s = l ++ 64%N :: d ++ 46%N :: t /\
                email_part l /\ email_part d /\ email_part t.
Proof.
  unfold validateEmail, test, re_email, email_part. rewrite matches_lang. split.
  - intros H.
    apply lang_Cat_inv in H. destruct H as (l & s1 & -> & Hl & H).
    apply lang_Cat_inv in H. destruct H as (a & s2 & -> & Ha & H).
    apply lang_Cat_inv in H. destruct H as (d & s3 & -> & Hd & H).
    apply lang_Cat_inv in H. destruct H as (b & t & -> & Hb & Ht).
    apply lang_chr in Ha, Hb. subst.
    apply lang_plus_Class in Hl, Hd, Ht.
    exists l, d, t. auto.
  - intros (l & d & t & -> & Hl & Hd & Ht).
    apply lang_plus_Class in Hl, Hd, Ht.
    apply lang_Cat; [assumption|].
    apply (@lang_Cat _ _ [64%N] (d ++ 46%N :: t)); [now apply lang_chr|].
    apply lang_Cat; [assumption|].
    apply (@lang_Cat _ _ [46%N] t); [now apply lang_chr | assumption].
Qed.

Lemma matches_times_Class p n : forall s,
  matches (times n (Class p)) s = (List.length s =? n)%nat && forallb p s.
Proof.
  induction n as [|n IH]; intros [|c s].
  - reflexivity.
  - simpl. apply matches_Void.
  - reflexivity.
  - change (times (S n) (Class p)) with (Cat (Class p) (times n (Class p))).
    rewrite matches_Cat_Class, IH. simpl.
    destruct (p c); simpl; auto using andb_false_r.
Qed.

Lemma digits_exactly n s :
  test (times n (Class digit)) s = true <->
  List.length s = n /\ Forall (fun c => digit c = true) s.
Proof.
  unfold test. rewrite matches_times_Class, andb_true_iff, Nat.eqb_eq, forallb_forall, Forall_forall.
  tauto.
Qed.

(** C7: [validateCPF] accepts exactly the strings made of eleven digits; it
    rejects "1234567890" and accepts "12345678901"; being a function into
    [bool] it yields a boolean on every string. *)
Theorem validateCPF_spec :
  (forall s, validateCPF s = true <->
             List.length s = 11 /\ Forall (fun c => digit c = true) s) /\
  validateCPF (lit "1234567890") = false /\
  validateCPF (lit "12345678901") = true /\
  (forall s, validateCPF s = true \/ validateCPF s = false).
Proof.
  split; [intro s; apply digits_exactly|].
  split; [reflexivity|]. split; [reflexivity|].
  intro s. destruct (validateCPF s); auto.
Qed.

(** C10: the phone validator and the CPF validator agree on every string,
    and both accept exactly the strings of eleven digits. *)
Theorem validatePhone_eq_validateCPF :
  (forall s, validatePhone s = validateCPF s) /\
  (forall s, validatePhone s = true <->
             List.length s = 11 /\ Forall (fun c => digit c = true) s).
Proof.
  split; intro s; [reflexivity | apply digits_exactly].
Qed.

Lemma cu_eqb_eq a b : cu_eqb a b = true <-> a = b.
Proof. apply N.eqb_eq. Qed.

Lemma eqb_eq s : forall t, JsString.eqb s t = true <-> s = t.
Proof.
  induction s as [|a s IH]; intros [|b t]; simpl; try (split; congruence).
  rewrite andb_true_iff, cu_eqb_eq, IH. split.
  - intros [-> ->]. reflexivity.
  - intros H. injection H. auto.
Qed.

Lemma eqb_refl s : JsString.eqb s s = true.
Proof. now apply eqb_eq. Qed.

Lemma eqb_neq_false s t : JsString.eqb s t = false -> s = t -> False.
Proof. intros H ->. rewrite eqb_refl in H. discriminate H. Qed.

(** ** The stored text of a string *)

Lemma to_text_plain c s :
  high_surrogate c = false -> low_surrogate c = false ->
  to_text (c :: s) = c :: to_text s.
Proof. intros Hh Hl. cbn [to_text]. now rewrite Hh, Hl. Qed.

Lemma to_text_lone_low c s :
  high_surrogate c = false -> low_surrogate c = true ->
  to_text (c :: s) = 65533%N :: to_text s.
Proof. intros Hh Hl. cbn [to_text]. now rewrite Hh, Hl. Qed.

Lemma to_text_pair c d s :
  high_surrogate c = true -> low_surrogate d = true ->
  to_text (c :: d :: s) = c :: d :: to_text s.
Proof. intros Hh Hl. cbn [to_text]. now rewrite Hh, Hl. Qed.

Lemma to_text_lone_high c d s :
  high_surrogate c = true -> low_surrogate d = false ->
  to_text (c :: d :: s) = 65533%N :: to_text (d :: s).
Proof.
  intros Hh Hl. change (to_text (c :: d :: s))
    with (if high_surrogate c
          then if low_surrogate d then c :: d :: to_text s else 65533%N :: to_text (d :: s)
          else if low_surrogate c then 65533%N :: to_text (d :: s)
               else c :: to_text (d :: s)).
  now rewrite Hh, Hl.
Qed.

Lemma to_text_replacement s : to_text (65533%N :: s) = 65533%N :: to_text s.
Proof. now apply to_text_plain. Qed.

Lemma to_text_idempotent_upto n : forall s,
  (List.length s <= n)%nat -> to_text (to_text s) = to_text s.
Proof.
  induction n as [|n IH]; intros s Hlen.
  - destruct s; [reflexivity | simpl in Hlen; lia].
  - destruct s as [|c rest]; [reflexivity|]. simpl in Hlen.
    destruct (high_surrogate c) eqn:Hh.
    + destruct rest as [|d rest'].
      * cbn [to_text]. rewrite Hh. reflexivity.
      * destruct (low_surrogate d) eqn:Hl.
        -- rewrite !(@to_text_pair _ _ _ Hh Hl).
           do 2 f_equal. apply IH. simpl in Hlen. lia.
        -- rewrite (@to_text_lone_high _ _ _ Hh Hl), to_text_replacement.
           f_equal. apply IH. lia.
    + destruct (low_surrogate c) eqn:Hl.
      * rewrite (@to_text_lone_low _ _ Hh Hl), to_text_replacement.
        f_equal. apply IH. lia.
      * rewrite !(@to_text_plain _ _ Hh Hl).
        f_equal. apply IH. lia.
Qed.

(** Text read back from the database is stored again unchanged. *)
Lemma to_text_idempotent s : to_text (to_text s) = to_text s.
Proof. apply (@to_text_idempotent_upto (List.length s)). lia. Qed.

Lemma to_text_nonempty s : nonempty (to_text s) = nonempty s.
Proof.
  destruct s as [|c [|d s]]; cbn [to_text]; [reflexivity| |].
  - destruct (high_surrogate c), (low_surrogate c); reflexivity.
  - destruct (high_surrogate c), (low_surrogate d), (low_surrogate c); reflexivity.
Qed.

Lemma digit_not_surrogate c :
  digit c = true -> high_surrogate c = false /\ low_surrogate c = false.
Proof.
  unfold digit, high_surrogate, low_surrogate.
  rewrite andb_true_iff, !N.leb_le. intros [H1 H2].
  split; apply andb_false_iff; left; apply N.leb_gt; lia.
Qed.

Lemma digits_well_formed s :
  Forall (fun c => digit c = true) s -> to_text s = s.
Proof.
  induction 1 as [|c s Hc Hs IH]; [reflexivity|].
  destruct (digit_not_surrogate c Hc) as [Hh Hl].
  rewrite (@to_text_plain _ _ Hh Hl). now f_equal.
Qed.


(** ** The registration handler against the list of checks *)

Section HandlerFacts.

Variable validateUUID : jsstring -> bool.

Lemma switch_type_validator type value :
  switch_type validateUUID type value =
  option_map (fun validate => validate value)
             (validator_of (validators validateUUID) type).
Proof.
  unfold switch_type, validators. cbn [validator_of].
  repeat match goal with
         | |- context [JsString.eqb type ?k] => destruct (JsString.eqb type k); [reflexivity|]
         end.
  reflexivity.
Qed.

Lemma post_register_expected body :
  post_register validateUUID body = expected_handler validateUUID body.
Proof.
  unfold post_register, expected_handler, first_failure, validation_checks,
    account_member, pix_member.
  destruct body as [[a|] [p|]]; cbn [Request.accountInfo Request.pixInfo present andb
    negb fst snd find option_map member_of]; try reflexivity.
  repeat match goal with
         | |- context [negb (Request.truthy ?x)] =>
             destruct (Request.truthy x);
             cbn [negb fst snd find option_map]; [|reflexivity]
         end.
  destruct (validateCPF _); cbn [negb fst snd find option_map]; [|reflexivity].
  rewrite switch_type_validator.
  destruct (validator_of _ _) as [validate|];
    cbn [negb fst snd find option_map present]; [|reflexivity].
  destruct (validate _); reflexivity.
Qed.





(** ** The table *)

Lemma has_key_spec type value r :
  Table.has_key type value r = true <-> Table.key r = (type, value).
Proof.
  unfold Table.has_key, Table.key.
  rewrite andb_true_iff, !eqb_eq. split.
  - intros [-> ->]. reflexivity.
  - intros H. injection H. auto.
Qed.

Lemma exists_key_In type value rows :
  existsb (Table.has_key type value) rows = true <->
  In (type, value) (map Table.key rows).
Proof.
  rewrite existsb_exists, in_map_iff. split.
  - intros (r & Hin & Hk). exists r. split; [now apply has_key_spec | assumption].
  - intros (r & Hk & Hin). exists r. split; [assumption | now apply has_key_spec].
Qed.

Lemma find_absent type value rows :
  existsb (Table.has_key type value) rows = false ->
  find (Table.has_key type value) rows = None.
Proof.
  intros H. destruct (find _ rows) as [r|] eqn:F; [|reflexivity].
  apply find_some in F. destruct F as [Hin Hk].
  assert (existsb (Table.has_key type value) rows = true) as E
    by (apply existsb_exists; eauto).
  congruence.
Qed.

Lemma find_appended type value rows r :
  existsb (Table.has_key type value) rows = false ->
  Table.key r = (type, value) ->
  find (Table.has_key type value) (rows ++ [r]) = Some r.
Proof.
  intros Habs Hk. induction rows as [|x rows IH]; simpl in *.
  - apply has_key_spec in Hk. now rewrite Hk.
  - apply orb_false_iff in Habs. destruct Habs as [Hx Hrows].
    rewrite Hx. auto.
Qed.

Lemma find_after_delete type value rows :
  find (Table.has_key type value)
       (filter (fun r => negb (Table.has_key type value r)) rows) = None.
Proof.
  induction rows as [|x rows IH]; simpl; [reflexivity|].
  destruct (Table.has_key type value x) eqn:E; simpl; [assumption|].
  now rewrite E.
Qed.

Lemma keys_filter (f : Table.row -> bool) rows :
  NoDup (map Table.key rows) -> NoDup (map Table.key (filter f rows)).
Proof.
  induction rows as [|x rows IH]; simpl; intros H; [constructor|].
  inversion H as [|k ks Hnotin Hrest]; subst.
  destruct (f x); simpl; auto.
  constructor; auto.
  rewrite in_map_iff in *. intros (r & Hk & Hin).
  apply Hnotin. exists r. split; [assumption|].
  apply filter_In in Hin. tauto.
Qed.

Lemma keys_appended rows r :
  NoDup (map Table.key rows) ->
  ~ In (Table.key r) (map Table.key rows) ->
  NoDup (map Table.key (rows ++ [r])).
Proof.
  intros Hnd Hnotin. rewrite map_app. simpl.
  induction (map Table.key rows) as [|k ks IH]; simpl.
  - constructor; [intros []|constructor].
  - inversion Hnd as [|k' ks' Hk Hks]; subst.
    constructor.
    + rewrite in_app_iff. simpl. intros [H|[H|[]]]; [contradiction|].
      apply Hnotin. left. congruence.
    + apply IH; [assumption|]. intro H. apply Hnotin. right. assumption.
Qed.

Lemma filter_absent type value rows :
  ~ In (type, value) (map Table.key rows) ->
  filter (Table.has_key type value) rows = [].
Proof.
  induction rows as [|x rows IH]; simpl; intros H; [reflexivity|].
  destruct (Table.has_key type value x) eqn:E.
  - apply has_key_spec in E. exfalso. apply H. left. assumption.
  - apply IH. intro Hin. apply H. right. assumption.
Qed.

Lemma one_row_per_key type value rows :
  NoDup (map Table.key rows) ->
  In (type, value) (map Table.key rows) ->
  List.length (filter (Table.has_key type value) rows) = 1%nat.
Proof.
  induction rows as [|x rows IH]; simpl; intros Hnd Hin; [contradiction|].
  inversion Hnd as [|k ks Hnotin Hrest]; subst.
  destruct (Table.has_key type value x) eqn:E.
  - apply has_key_spec in E. rewrite E in Hnotin.
    rewrite (@filter_absent _ _ _ Hnotin). reflexivity.
  - destruct Hin as [Hx|Hin]; [|auto].
    apply has_key_spec in Hx. congruence.
Qed.

Lemma same_text_key_spec type value r :
  Table.same_text_key type value r = true <->
  to_text (Table.pix_type r) = to_text type /\
  to_text (Table.pix_value r) = to_text value.
Proof.
  unfold Table.same_text_key. now rewrite andb_true_iff, !eqb_eq.
Qed.

(** A row holding the key as it is, or as its text, is in the way of an
    insertion of that key. *)
Lemma same_text_of_key type value r :
  Table.key r = (type, value) \/ Table.key r = (to_text type, to_text value) ->
  Table.same_text_key type value r = true.
Proof.
  unfold Table.key. intros [H|H]; injection H as H1 H2; apply same_text_key_spec;
    rewrite H1, H2.
  - auto.
  - now rewrite !to_text_idempotent.
Qed.

Lemma no_same_text type value rows :
  existsb (Table.same_text_key type value) rows = false ->
  forall r, In r rows -> Table.same_text_key type value r = false.
Proof.
  intros E r Hin. destruct (Table.same_text_key type value r) eqn:K; [|reflexivity].
  assert (existsb (Table.same_text_key type value) rows = true) as E'
    by (apply existsb_exists; eauto).
  congruence.
Qed.

Lemma no_same_text_absent type value rows :
  existsb (Table.same_text_key type value) rows = false ->
  existsb (Table.has_key (to_text type) (to_text value)) rows = false.
Proof.
  intros E. destruct (existsb (Table.has_key _ _) rows) eqn:H; [|reflexivity].
  apply existsb_exists in H. destruct H as (r & Hin & Hk). apply has_key_spec in Hk.
  pose proof (no_same_text _ _ _ E r Hin) as K.
  rewrite (@same_text_of_key type value r (or_intror Hk)) in K. discriminate K.
Qed.

Lemma db_run_keeps_keys_unique now sql tbl :
  NoDup (map Table.key (Table.rows tbl)) ->
  NoDup (map Table.key (Table.rows (snd (db_run now sql tbl)))).
Proof.
  intros Hnd. destruct sql as [type value nome cpf banco agencia conta | type value];
    cbn [db_run].
  - destruct (existsb (Table.same_text_key type value) (Table.rows tbl)) eqn:E;
      cbn [snd Table.rows]; [assumption|].
    apply keys_appended; [assumption|].
    unfold Table.key at 1. cbn [Table.pix_type Table.pix_value].
    intro Hin. apply (proj2 (exists_key_In _ _ (Table.rows tbl))) in Hin.
    rewrite (no_same_text_absent _ _ _ E) in Hin. discriminate.
  - cbn [snd Table.rows]. now apply keys_filter.
Qed.

Lemma run_keeps_keys_unique now h tbl :
  NoDup (map Table.key (Table.rows tbl)) ->
  NoDup (map Table.key (Table.rows (snd (run now h tbl)))).
Proof.
  intros Hnd. destruct h as [r | sql cb | sql cb]; simpl.
  - assumption.
  - destruct (db_get sql tbl). assumption.
  - pose proof (db_run_keeps_keys_unique now sql tbl Hnd) as H.
    destruct (db_run now sql tbl) as [[err this] tbl']. assumption.
Qed.

Lemma array_includes_In xs x : array_includes xs x = true <-> In x xs.
Proof.
  unfold array_includes. rewrite existsb_exists. split.
  - intros (y & Hin & E). apply eqb_eq in E. now subst.
  - intros Hin. exists x. split; [assumption | apply eqb_refl].
Qed.

(** C1: in every state of the table reachable from the empty one by
    lookups, registrations and deletions, the keys (pix_type, pix_value)
    of the rows are pairwise different. *)
Theorem reachable_keys_unique (tbl : Table.t) :
  reachable validateUUID tbl -> NoDup (map Table.key (Table.rows tbl)).
Proof.
  induction 1 as [|now rq tbl Hreach IH].
  - constructor.
  - now apply run_keeps_keys_unique.
Qed.

Lemma register_then_lookup_text
  (nome cpf banco agencia conta type value now now' : jsstring) (tbl : Table.t) :
  status (fst (run now (post_register validateUUID
                          (registration nome cpf banco agencia conta type value)) tbl)) = 201%Z ->
  run now' (get_record (to_text type) (to_text value))
      (snd (run now (post_register validateUUID
                       (registration nome cpf banco agencia conta type value)) tbl)) =
  (reply 200 (JObj [
     member "id" (JNum (Table.next_id tbl));
     member "accountInfo" (JObj [
       member "nome" (JStr (to_text nome));
       member "cpf" (JStr (to_text cpf));
       member "banco" (JStr (to_text banco));
       member "agencia" (JStr (to_text agencia));
       member "conta" (JStr (to_text conta))]);
     member "pixInfo" (JObj [
       member "type" (JStr (to_text type));
       member "value" (JStr (to_text value))]);
     member "created_at" (JStr now)]),
   snd (run now (post_register validateUUID
                   (registration nome cpf banco agencia conta type value)) tbl)).
Proof.
  rewrite post_register_expected. unfold expected_handler.
  destruct (first_failure validateUUID _) as [msg|]; [simpl; discriminate|].
  cbn [run db_run account_member pix_member member_of registration
       Request.accountInfo Request.pixInfo Request.to_string Request.nome Request.cpf
       Request.banco Request.agencia Request.conta Request.type Request.value].
  destruct (existsb (Table.same_text_key type value) (Table.rows tbl)) eqn:E.
  - cbn [fst snd register_cb].
    destruct (includes unique_violation _); simpl; discriminate.
  - intros _. cbn [fst snd get_record run db_get Table.rows].
    rewrite (@find_appended (to_text type) (to_text value) _ _
               (no_same_text_absent _ _ _ E)) by reflexivity.
    reflexivity.
Qed.

(** C2 (as amended): when the registration of (type, value) with (nome,
    cpf, banco, agencia, conta) answers 201, and these seven members are
    JSON strings without unpaired surrogates, looking (type, value) up in
    the table it leaves answers 200 with exactly those values under
    accountInfo and pixInfo, the key assigned by the table and its
    creation time. *)
Theorem register_then_lookup
  (nome cpf banco agencia conta type value now now' : jsstring) (tbl : Table.t) :
  well_formed nome -> well_formed cpf -> well_formed banco -> well_formed agencia ->
  well_formed conta -> well_formed type -> well_formed value ->
  status (fst (run now (post_register validateUUID
                          (registration nome cpf banco agencia conta type value)) tbl)) = 201%Z ->
  run now' (get_record type value)
      (snd (run now (post_register validateUUID
                       (registration nome cpf banco agencia conta type value)) tbl)) =
  (reply 200 (JObj [
     member "id" (JNum (Table.next_id tbl));
     member "accountInfo" (JObj [
       member "nome" (JStr nome);
       member "cpf" (JStr cpf);
       member "banco" (JStr banco);
       member "agencia" (JStr agencia);
       member "conta" (JStr conta)]);
     member "pixInfo" (JObj [
       member "type" (JStr type);
       member "value" (JStr value)]);
     member "created_at" (JStr now)]),
   snd (run now (post_register validateUUID
                   (registration nome cpf banco agencia conta type value)) tbl)).
Proof.
  unfold well_formed. intros Hn Hc Hb Ha Hct Ht Hv H201.
  pose proof (register_then_lookup_text nome cpf banco agencia conta type value
                now now' tbl H201) as H.
  rewrite Hn, Hc, Hb, Ha, Hct, Ht, Hv in H. exact H.
Qed.

(** C3: a registration that passes every check, for a key already held by
    a row of the table, answers 409 with the message naming the type, and
    leaves the table as it was. *)
Theorem register_duplicate
  (nome cpf banco agencia conta type value now : jsstring) (tbl : Table.t) :
  first_failure validateUUID (registration nome cpf banco agencia conta type value) = None ->
  (exists r, In r (Table.rows tbl) /\ Table.pix_type r = type /\ Table.pix_value r = value) ->
  run now (post_register validateUUID
             (registration nome cpf banco agencia conta type value)) tbl =
  (reply 409 (error_body (lit "Chave PIX (" ++ type ++ lit ") já registrada")), tbl).
Proof.
  intros Hvalid (r & Hin & Ht & Hv).
  rewrite post_register_expected. unfold expected_handler. rewrite Hvalid.
  cbn [run db_run account_member pix_member member_of registration
       Request.accountInfo Request.pixInfo Request.to_string Request.nome Request.cpf
       Request.banco Request.agencia Request.conta Request.type Request.value].
  assert (existsb (Table.same_text_key type value) (Table.rows tbl) = true) as E.
  { apply existsb_exists. exists r. split; [assumption|].
    apply same_text_of_key. left. unfold Table.key. congruence. }
  rewrite E. cbn [register_cb].
  replace (includes unique_violation (lit "UNIQUE constraint failed")) with true
    by (vm_compute; reflexivity).
  reflexivity.
Qed.

(** C4: after a deletion of (type, value) that answered 200, the lookup of
    (type, value) answers 404 "Registro não encontrado". *)
Theorem delete_then_lookup (type value now now' : jsstring) (tbl : Table.t) :
  status (fst (run now (delete_record type value) tbl)) = 200%Z ->
  fst (run now' (get_record type value) (snd (run now (delete_record type value) tbl))) =
  reply 404 (error_body (lit "Registro não encontrado")).
Proof.
  unfold delete_record.
  destruct (array_includes validTypes type); cbn [negb]; [|simpl; discriminate].
  intros _. cbn [run db_run snd fst get_record db_get Table.rows].
  rewrite find_after_delete. reflexivity.
Qed.

(** C6: on a table whose keys are pairwise different, deleting a key of a
    recognized type that is present answers 200 with the members message
    and deletedCount, and deletedCount is 1. *)
Theorem delete_present (type value now : jsstring) (tbl : Table.t) :
  NoDup (map Table.key (Table.rows tbl)) ->
  In type validTypes ->
  In (type, value) (map Table.key (Table.rows tbl)) ->
  fst (run now (delete_record type value) tbl) =
  reply 200 (JObj [
    member "message" (JStr (lit "Registro excluído com sucesso"));
    member "deletedCount" (JNum 1)]).
Proof.
  intros Hnd Hty Hin. unfold delete_record.
  apply array_includes_In in Hty. rewrite Hty.
  cbn [negb run db_run fst delete_record_cb changes].
  rewrite (@one_row_per_key _ _ _ Hnd Hin). reflexivity.
Qed.

(** C8: a deletion whose type is none of email, phone, cpf, cnpj, uuid
    answers 400 "Tipo de chave PIX inválido" without sending any statement,
    and the table is unchanged. *)
Theorem delete_unrecognized_type (type value : jsstring) :
  ~ In type validTypes ->
  delete_record type value = Respond (reply 400 (error_body (lit "Tipo de chave PIX inválido"))) /\
  no_store_access (delete_record type value) /\
  (forall now tbl,
     run now (delete_record type value) tbl =
     (reply 400 (error_body (lit "Tipo de chave PIX inválido")), tbl)).
Proof.
  intros Hty. unfold delete_record.
  destruct (array_includes validTypes type) eqn:E.
  - apply array_includes_In in E. contradiction.
  - repeat split.
Qed.

End HandlerFacts.

(** ** Start-up *)

(** C9 (as amended): when the database file was opened and X_API_KEY is
    unset or empty, the start-up callback logs the configuration error and
    exits with code 1, and none of the statements it had handed to the
    database is executed: whatever the database held, it holds the same
    afterwards (no table is created, no row is written). *)
Theorem bootstrap_without_key (X_API_KEY : option jsstring) :
  Request.truthy X_API_KEY = false ->
  exit_code (bootstrap None X_API_KEY) = Some 1%Z /\
  In (ConsoleError (lit "Erro: X_API_KEY não definida no .env"))
     (before_exit (bootstrap None X_API_KEY)) /\
  executed (bootstrap None X_API_KEY) = [] /\
  (forall n db, startup n (bootstrap None X_API_KEY) db = db).
Proof.
  intros Hkey.
  assert (exit_code (bootstrap None X_API_KEY) = Some 1%Z) as Hexit
    by (unfold bootstrap; rewrite Hkey; reflexivity).
  assert (executed (bootstrap None X_API_KEY) = []) as Hnone
    by (unfold executed; now rewrite Hexit).
  repeat split; try assumption.
  - unfold bootstrap. rewrite Hkey. cbn [negb before_exit]. right. right. right. left.
    reflexivity.
  - intros n db. unfold startup. rewrite Hnone, firstn_nil. reflexivity.
Qed.

Lemma bootstrap_without_key_witness :
  Request.truthy None = false /\
  exit_code (bootstrap None None) = Some 1%Z /\
  startup 2 (bootstrap None None) fresh = fresh.
Proof.
  destruct (bootstrap_without_key None eq_refl) as (Hexit & _ & _ & Hdb).
  exact (conj eq_refl (conj Hexit (Hdb 2%nat fresh))).
Defined.

(** C9 (as stated) fails: with X_API_KEY unset, when the database file
    cannot be opened the callback only logs that error; the process does
    not exit. *)
Lemma bootstrap_open_failure_no_exit :
  Request.truthy None = false /\
  bootstrap (Some (lit "SQLITE_CANTOPEN: unable to open database file")) None =
    [ConsoleError (lit "Erro ao conectar ao banco: SQLITE_CANTOPEN: unable to open database file")] /\
  exit_code (bootstrap (Some (lit "SQLITE_CANTOPEN: unable to open database file")) None)
    = None.
Proof.
  split; [reflexivity|]. split; [vm_compute|]; reflexivity.
Qed.

(** ** Instances on the sample run *)

Example register_not_an_email (tbl : Table.t) :
  run Sample.at_noon (post_register Sample.uuid_never Sample.not_an_email) tbl =
  (reply 400 (error_body (lit "Valor da chave PIX (email) é inválido")), tbl).
Proof. reflexivity. Qed.

Example register_ana :
  run Sample.at_noon (post_register Sample.uuid_never Sample.ana) Table.empty =
  (reply 201 (JObj [
     member "id" (JNum 1);
     member "accountInfo" (JObj [
       member "nome" (JStr (lit "Ana"));
       member "cpf" (JStr (lit "12345678901"));
       member "banco" (JStr (lit "001"));
       member "agencia" (JStr (lit "0001"));
       member "conta" (JStr (lit "12345-6"))]);
     member "pixInfo" (JObj [
       member "type" (JStr (lit "email"));
       member "value" (JStr (lit "ana@example.com"))]);
     member "message" (JStr (lit "Registro criado com sucesso"))]),
   Sample.one_row).
Proof. vm_compute. reflexivity. Qed.

Example bootstrap_with_key :
  startup 3 (bootstrap None (Some (lit "k-123"))) fresh =
  {| banks := Some [{| bank_id := 1; name := lit "Banco Exemplo"; api_key := lit "k-123" |}];
     pix_records := Some Table.empty |}.
Proof. vm_compute. reflexivity. Qed.

Lemma reachable_keys_unique_witness :
  NoDup (map Table.key
           (Table.rows (snd (run Sample.at_noon
                               (serve Sample.uuid_never (Register Sample.ana))
                               Table.empty)))).
Proof.
  apply (@reachable_keys_unique Sample.uuid_never).
  apply reach_serve. apply reach_empty.
Defined.

Lemma register_then_lookup_witness :
  status (fst (run Sample.at_noon (post_register Sample.uuid_never Sample.ana)
                   Table.empty)) = 201%Z /\
  fst (run Sample.later (get_record (lit "email") (lit "ana@example.com"))
           (snd (run Sample.at_noon (post_register Sample.uuid_never Sample.ana)
                     Table.empty))) =
  reply 200 (JObj [
     member "id" (JNum 1);
     member "accountInfo" (JObj [
       member "nome" (JStr (lit "Ana"));
       member "cpf" (JStr (lit "12345678901"));
       member "banco" (JStr (lit "001"));
       member "agencia" (JStr (lit "0001"));
       member "conta" (JStr (lit "12345-6"))]);
     member "pixInfo" (JObj [
       member "type" (JStr (lit "email"));
       member "value" (JStr (lit "ana@example.com"))]);
     member "created_at" (JStr Sample.at_noon)]).
Proof.
  split; [vm_compute; reflexivity|].
  unfold Sample.ana.
  rewrite (@register_then_lookup Sample.uuid_never); vm_compute; reflexivity.
Defined.

(** C2 (as stated) fails: a registration whose nome is the unpaired
    surrogate U+D800 answers 201, and the lookup of its key then answers
    with nome U+FFFD, not with the registered value. *)
Lemma register_then_lookup_unpaired_surrogate :
  validateEmail (lit "ana@example.com") = true /\
  status (fst (run Sample.at_noon
                   (post_register Sample.uuid_never
                      (registration [55296%N] (lit "12345678901") (lit "001") (lit "0001")
                                    (lit "12345-6") (lit "email") (lit "ana@example.com")))
                   Table.empty)) = 201%Z /\
  fst (run Sample.later (get_record (lit "email") (lit "ana@example.com"))
           (snd (run Sample.at_noon
                     (post_register Sample.uuid_never
                        (registration [55296%N] (lit "12345678901") (lit "001") (lit "0001")
                                      (lit "12345-6") (lit "email") (lit "ana@example.com")))
                     Table.empty))) =
  reply 200 (JObj [
     member "id" (JNum 1);
     member "accountInfo" (JObj [
       member "nome" (JStr [65533%N]);
       member "cpf" (JStr (lit "12345678901"));
       member "banco" (JStr (lit "001"));
       member "agencia" (JStr (lit "0001"));
       member "conta" (JStr (lit "12345-6"))]);
     member "pixInfo" (JObj [
       member "type" (JStr (lit "email"));
       member "value" (JStr (lit "ana@example.com"))]);
     member "created_at" (JStr Sample.at_noon)]) /\
  [65533%N] <> [55296%N].
Proof.
  repeat split; try (vm_compute; reflexivity). discriminate.
Qed.

Lemma register_duplicate_witness :
  run Sample.later (post_register Sample.uuid_never Sample.ana) Sample.one_row =
  (reply 409 (error_body (lit "Chave PIX (email) já registrada")), Sample.one_row).
Proof.
  unfold Sample.ana.
  rewrite (@register_duplicate Sample.uuid_never).
  - vm_compute; reflexivity.
  - vm_compute; reflexivity.
  - exists Sample.ana_row. repeat split. left. reflexivity.
Defined.

Lemma delete_then_lookup_witness :
  status (fst (run Sample.later (delete_record (lit "email") (lit "ana@example.com"))
                   Sample.one_row)) = 200%Z /\
  fst (run Sample.later (get_record (lit "email") (lit "ana@example.com"))
           (snd (run Sample.later (delete_record (lit "email") (lit "ana@example.com"))
                     Sample.one_row))) =
  reply 404 (error_body (lit "Registro não encontrado")).
Proof.
  split; [vm_compute; reflexivity|].
  apply delete_then_lookup. vm_compute; reflexivity.
Defined.

Lemma delete_present_witness :
  fst (run Sample.later (delete_record (lit "email") (lit "ana@example.com"))
           Sample.one_row) =
  reply 200 (JObj [
    member "message" (JStr (lit "Registro excluído com sucesso"));
    member "deletedCount" (JNum 1)]).
Proof.
  apply delete_present.
  - simpl. constructor; [intros []|constructor].
  - left. reflexivity.
  - left. reflexivity.
Defined.

Lemma delete_unrecognized_type_witness :
  ~ In (lit "bitcoin") validTypes /\
  run Sample.later (delete_record (lit "bitcoin") (lit "1A1zP1eP")) Sample.one_row =
  (reply 400 (error_body (lit "Tipo de chave PIX inválido")), Sample.one_row).
Proof.
  assert (~ In (lit "bitcoin") validTypes) as H.
  { intro H. apply array_includes_In in H. vm_compute in H. discriminate. }
  split; [exact H|].
  apply (proj2 (proj2 (delete_unrecognized_type (lit "1A1zP1eP") H))).
Defined.

(** ** Further facts: the validators *)

(** X1: [validateCNPJ] accepts exactly the strings made of fourteen digits. *)
Theorem validateCNPJ_spec (s : jsstring) :
  validateCNPJ s = true <->
  List.length s = 14 /\ Forall (fun c => digit c = true) s.
Proof. apply digits_exactly. Qed.

(** X2: [validateEmail] accepts exactly the strings of the form
    local [@] domain [.] last, where each of the three parts is a non-empty
    run of code units other than white space and [@]. *)
Theorem validateEmail_format (s : jsstring) :
  validateEmail s = true <->
  exists l d t, s = l ++ 64%N :: d ++ 46%N :: t /\
                email_part l /\ email_part d /\ email_part t.
Proof. exact (validateEmail_spec s). Qed.

Lemma email_part_clean s :
  forallb not_space_at s = true ->
  count_occ N.eq_dec s 64%N = 0%nat /\
  forallb (fun c => negb (white_space c)) s = true.
Proof.
  induction s as [|c s IH]; simpl; [auto|].
  rewrite andb_true_iff. intros [Hc Hs]. destruct (IH Hs) as [IH1 IH2].
  unfold not_space_at in Hc. rewrite negb_true_iff, orb_false_iff in Hc.
  destruct Hc as [Hw Hat]. rewrite Hw, IH2. simpl.
  destruct (N.eq_dec c 64) as [->|_]; [discriminate Hat | auto].
Qed.

(** X3: A string accepted by [validateEmail] holds exactly one [@] and no
    white space. *)
Theorem validateEmail_one_at (s : jsstring) :
  validateEmail s = true ->
  count_occ N.eq_dec s 64%N = 1%nat /\
  forallb (fun c => negb (white_space c)) s = true.
Proof.
  intros H. apply validateEmail_spec in H.
  destruct H as (l & d & t & -> & [_ Hl] & [_ Hd] & [_ Ht]).
  apply email_part_clean in Hl, Hd, Ht.
  destruct Hl as [Cl Wl], Hd as [Cd Wd], Ht as [Ct Wt].
  split.
  - rewrite count_occ_app, count_occ_cons_eq by reflexivity.
    rewrite count_occ_app, count_occ_cons_neq by discriminate.
    rewrite Cl, Cd, Ct. reflexivity.
  - rewrite forallb_app. cbn [forallb]. rewrite forallb_app. cbn [forallb].
    repeat (apply andb_true_intro; split); solve [assumption | reflexivity].
Qed.

Lemma validateEmail_one_at_witness :
  count_occ N.eq_dec (lit "ana@example.com") 64%N = 1%nat /\
  forallb (fun c => negb (white_space c)) (lit "ana@example.com") = true.
Proof.
  apply validateEmail_one_at. vm_compute. reflexivity.
Defined.

Lemma digits_no_at s :
  Forall (fun c => digit c = true) s -> validateEmail s = false.
Proof.
  intros Hd. destruct (validateEmail s) eqn:E; [|reflexivity].
  apply validateEmail_spec in E. destruct E as (l & d & t & -> & _).
  rewrite Forall_forall in Hd.
  assert (digit 64%N = true) as H by (apply Hd; rewrite in_app_iff; right; left; reflexivity).
  discriminate H.
Qed.

(** X4: The formats of the key types exclude one another, except that phone
    and CPF share theirs: no string is at once a valid CPF and a valid
    CNPJ, nor a valid e-mail address and a valid CPF or CNPJ. *)
Theorem formats_exclusive (s : jsstring) :
  validateCPF s && validateCNPJ s = false /\
  validateCPF s && validateEmail s = false /\
  validateCNPJ s && validateEmail s = false.
Proof.
  repeat split.
  - destruct (validateCPF s) eqn:A, (validateCNPJ s) eqn:B; try reflexivity.
    apply digits_exactly in A, B. destruct A as [A _], B as [B _]. congruence.
  - destruct (validateCPF s) eqn:A; [|reflexivity]. simpl.
    apply digits_exactly in A. apply digits_no_at, A.
  - destruct (validateCNPJ s) eqn:A; [|reflexivity]. simpl.
    apply digits_exactly in A. apply digits_no_at, A.
Qed.

(** ** Further facts: the record handlers *)

Lemma next_id_above_fold (rows : list Table.row) (s : Z) :
  (s <= fold_right (fun r m => Z.max (Table.id r) m) s rows)%Z /\
  Forall (fun r => (Table.id r <= fold_right (fun r m => Z.max (Table.id r) m) s rows)%Z)
         rows.
Proof.
  induction rows as [|x rows [IH1 IH2]]; simpl.
  - split; [lia | constructor].
  - split; [lia|]. constructor; [lia|].
    eapply Forall_impl; [|exact IH2]. simpl. intros; lia.
Qed.

Lemma next_id_above (tbl : Table.t) :
  (Table.seq tbl < Table.next_id tbl)%Z /\
  Forall (fun r => (Table.id r < Table.next_id tbl)%Z) (Table.rows tbl).
Proof.
  unfold Table.next_id.
  destruct (next_id_above_fold (Table.rows tbl) (Table.seq tbl)) as [H1 H2].
  split; [lia|]. eapply Forall_impl; [|exact H2]. simpl. intros; lia.
Qed.

Lemma NoDup_map_filter {A B} (f : A -> B) (g : A -> bool) (l : list A) :
  NoDup (map f l) -> NoDup (map f (filter g l)).
Proof.
  induction l as [|x l IH]; simpl; intros H; [constructor|].
  inversion H as [|k ks Hnotin Hrest]; subst.
  destruct (g x); simpl; auto.
  constructor; auto.
  rewrite in_map_iff in *. intros (y & Hy & Hin).
  apply Hnotin. exists y. split; [assumption|].
  apply filter_In in Hin. tauto.
Qed.

Lemma Forall_filter_keep {A} (P : A -> Prop) (g : A -> bool) (l : list A) :
  Forall P l -> Forall P (filter g l).
Proof.
  rewrite !Forall_forall. intros H x Hin. apply filter_In in Hin. apply H, Hin.
Qed.

Lemma filter_none_matching type value rows :
  ~ In (type, value) (map Table.key rows) ->
  filter (fun r => negb (Table.has_key type value r)) rows = rows.
Proof.
  induction rows as [|x rows IH]; simpl; intros H; [reflexivity|].
  destruct (Table.has_key type value x) eqn:E; simpl.
  - apply has_key_spec in E. exfalso. apply H. left. assumption.
  - f_equal. apply IH. intro Hin. apply H. right. assumption.
Qed.

Lemma find_unique rows : forall r,
  NoDup (map Table.key rows) -> In r rows ->
  find (Table.has_key (Table.pix_type r) (Table.pix_value r)) rows = Some r.
Proof.
  induction rows as [|x rows IH]; simpl; intros r Hnd Hin; [contradiction|].
  inversion Hnd as [|k ks Hnotin Hrest]; subst.
  destruct Hin as [->|Hin].
  - assert (Table.has_key (Table.pix_type r) (Table.pix_value r) r = true) as E
      by (now apply has_key_spec).
    now rewrite E.
  - destruct (Table.has_key (Table.pix_type r) (Table.pix_value r) x) eqn:E.
    + apply has_key_spec in E. exfalso. apply Hnotin.
      rewrite E. change (In (Table.key r) (map Table.key rows)). now apply in_map.
    + now apply IH.
Qed.

Lemma find_other_key type value type' value' rows :
  (type', value') <> (type, value) ->
  find (Table.has_key type' value')
       (filter (fun r => negb (Table.has_key type value r)) rows) =
  find (Table.has_key type' value') rows.
Proof.
  intros Hne. induction rows as [|x rows IH]; simpl; [reflexivity|].
  destruct (Table.has_key type value x) eqn:E; simpl.
  - destruct (Table.has_key type' value' x) eqn:E'; [|assumption].
    apply has_key_spec in E, E'. congruence.
  - now rewrite IH.
Qed.

Lemma find_other_key_appended type' value' rows r :
  Table.key r <> (type', value') ->
  find (Table.has_key type' value') (rows ++ [r]) =
  find (Table.has_key type' value') rows.
Proof.
  intros Hne. induction rows as [|x rows IH]; simpl.
  - destruct (Table.has_key type' value' r) eqn:E; [|reflexivity].
    apply has_key_spec in E. contradiction.
  - now rewrite IH.
Qed.

Lemma table_eta (tbl : Table.t) :
  {| Table.rows := Table.rows tbl; Table.seq := Table.seq tbl |} = tbl.
Proof. destruct tbl; reflexivity. Qed.

(** X5: A lookup never changes the table; it answers 200 with a row of the
    table holding the key exactly when some row holds it, and 404
    otherwise. *)
Theorem lookup_found_iff (type value now : jsstring) (tbl : Table.t) :
  snd (run now (get_record type value) tbl) = tbl /\
  ((exists r, In r (Table.rows tbl) /\ Table.key r = (type, value) /\
              fst (run now (get_record type value) tbl) = found r) <->
   In (type, value) (map Table.key (Table.rows tbl))) /\
  (fst (run now (get_record type value) tbl) =
     reply 404 (error_body (lit "Registro não encontrado")) <->
   ~ In (type, value) (map Table.key (Table.rows tbl))).
Proof.
  cbn [run get_record db_get fst snd]. split; [reflexivity|].
  destruct (find (Table.has_key type value) (Table.rows tbl)) as [r|] eqn:F.
  - apply find_some in F. destruct F as [Hin Hk]. apply has_key_spec in Hk.
    assert (In (type, value) (map Table.key (Table.rows tbl))) as HIn
      by (rewrite <- Hk; now apply in_map).
    split; split; intros H; auto.
    + exists r. auto.
    + discriminate H.
    + contradiction.
  - assert (~ In (type, value) (map Table.key (Table.rows tbl))) as HIn.
    { intros Hin. apply exists_key_In in Hin. apply existsb_exists in Hin.
      destruct Hin as (r & Hr & Hk). now rewrite (find_none _ _ F r Hr) in Hk. }
    split; split; intros H; auto.
    + destruct H as (r & _ & _ & H). discriminate H.
    + contradiction.
Qed.

(** X6: Deleting a key of a recognized type that no row holds answers 404 and
    leaves the table as it was. *)
Theorem delete_absent (type value now : jsstring) (tbl : Table.t) :
  In type validTypes ->
  ~ In (type, value) (map Table.key (Table.rows tbl)) ->
  run now (delete_record type value) tbl =
  (reply 404 (error_body (lit "Registro não encontrado")), tbl).
Proof.
  intros Hty Habs. unfold delete_record.
  apply array_includes_In in Hty. rewrite Hty.
  cbn [negb run db_run delete_record_cb changes].
  rewrite (@filter_absent _ _ _ Habs), (@filter_none_matching _ _ _ Habs), table_eta.
  reflexivity.
Qed.

Lemma delete_absent_witness :
  run Sample.later (delete_record (lit "cpf") (lit "12345678901")) Sample.one_row =
  (reply 404 (error_body (lit "Registro não encontrado")), Sample.one_row).
Proof.
  apply delete_absent.
  - right. right. left. reflexivity.
  - simpl. intros [H|[]]. vm_compute in H. discriminate H.
Defined.

(** X7: A deletion does not disturb the other keys: the lookup of a different
    (type, value) answers after it what it answered before. *)
Theorem delete_keeps_other_keys (type value type' value' now now' : jsstring)
  (tbl : Table.t) :
  (type', value') <> (type, value) ->
  fst (run now' (get_record type' value') (snd (run now (delete_record type value) tbl))) =
  fst (run now' (get_record type' value') tbl).
Proof.
  intros Hne. unfold delete_record.
  destruct (array_includes validTypes type); cbn [negb]; [|reflexivity].
  cbn [run db_run db_get get_record fst snd Table.rows].
  now rewrite find_other_key.
Qed.

Lemma delete_keeps_other_keys_witness :
  fst (run Sample.later (get_record (lit "email") (lit "ana@example.com"))
           (snd (run Sample.later (delete_record (lit "cpf") (lit "12345678901"))
                     Sample.one_row))) =
  fst (run Sample.later (get_record (lit "email") (lit "ana@example.com")) Sample.one_row).
Proof.
  apply delete_keeps_other_keys. intros H. vm_compute in H. discriminate H.
Defined.

Section RegistrationFacts.

Variable validateUUID : jsstring -> bool.

Lemma recognized_present type :
  present (validator_of (validators validateUUID) type) = array_includes validTypes type.
Proof.
  unfold validators, validTypes, array_includes. cbn [validator_of existsb].
  repeat match goal with
         | |- context [JsString.eqb type ?k] => destruct (JsString.eqb type k); [reflexivity|]
         end.
  reflexivity.
Qed.

Lemma truthy_nonempty x :
  Request.truthy x = true -> nonempty (Request.to_string x) = true.
Proof. destruct x as [s|]; simpl; [auto | discriminate]. Qed.

(** What a body that passes every check is made of. *)
Lemma first_failure_None body :
  first_failure validateUUID body = None ->
  nonempty (account_member Request.nome body) = true /\
  nonempty (account_member Request.cpf body) = true /\
  nonempty (account_member Request.banco body) = true /\
  nonempty (account_member Request.agencia body) = true /\
  nonempty (account_member Request.conta body) = true /\
  nonempty (pix_member Request.type body) = true /\
  nonempty (pix_member Request.value body) = true /\
  validateCPF (account_member Request.cpf body) = true /\
  switch_type validateUUID (pix_member Request.type body) (pix_member Request.value body)
    = Some true.
Proof.
  unfold first_failure, validation_checks, account_member, pix_member.
  rewrite switch_type_validator.
  cbn [find fst snd option_map].
  repeat match goal with
         | |- context [if negb ?b then _ else _] =>
             destruct b eqn:?; cbn [negb option_map]; [|discriminate]
         end.
  intros _.
  destruct (validator_of _ _) as [validate|]; [|discriminate].
  repeat split; try (apply truthy_nonempty; assumption); try assumption.
  cbn [option_map]. congruence.
Qed.

Lemma first_failure_recognized body :
  first_failure validateUUID body = None ->
  In (pix_member Request.type body) validTypes.
Proof.
  intros H. apply first_failure_None in H.
  destruct H as (_ & _ & _ & _ & _ & _ & _ & _ & H).
  rewrite switch_type_validator in H.
  apply array_includes_In. rewrite <- recognized_present.
  destruct (validator_of _ _); [reflexivity | discriminate].
Qed.

(** X8: A registration (its members JSON strings) that passes every
    check, for a key whose text no row holds, answers 201 with the
    registered values and the key AUTOINCREMENT assigns, and appends
    exactly one row holding the text of each member: the rows already
    stored are kept, in order. *)
Theorem register_new_key
  (nome cpf banco agencia conta type value now : jsstring) (tbl : Table.t) :
  first_failure validateUUID (registration nome cpf banco agencia conta type value) = None ->
  (forall r, In r (Table.rows tbl) ->
     (to_text (Table.pix_type r), to_text (Table.pix_value r))
     <> (to_text type, to_text value)) ->
  run now (post_register validateUUID
             (registration nome cpf banco agencia conta type value)) tbl =
  (reply 201 (JObj [
     member "id" (JNum (Table.next_id tbl));
     member "accountInfo" (JObj [
       member "nome" (JStr nome);
       member "cpf" (JStr cpf);
       member "banco" (JStr banco);
       member "agencia" (JStr agencia);
       member "conta" (JStr conta)]);
     member "pixInfo" (JObj [
       member "type" (JStr type);
       member "value" (JStr value)]);
     member "message" (JStr (lit "Registro criado com sucesso"))]),
   {| Table.rows :=
        Table.rows tbl ++
        [{| Table.id := Table.next_id tbl; Table.pix_type := to_text type;
            Table.pix_value := to_text value; Table.nome := to_text nome;
            Table.cpf := to_text cpf; Table.banco := to_text banco;
            Table.agencia := to_text agencia; Table.conta := to_text conta;
            Table.created_at := now |}];
      Table.seq := Table.next_id tbl |}).
Proof.
  intros Hvalid Habs.
  rewrite post_register_expected. unfold expected_handler. rewrite Hvalid.
  cbn [run db_run account_member pix_member member_of registration
       Request.accountInfo Request.pixInfo Request.to_string Request.nome Request.cpf
       Request.banco Request.agencia Request.conta Request.type Request.value].
  destruct (existsb (Table.same_text_key type value) (Table.rows tbl)) eqn:E.
  - apply existsb_exists in E. destruct E as (r & Hin & Hk).
    apply same_text_key_spec in Hk. destruct Hk as [H1 H2].
    exfalso. apply (Habs r Hin). now rewrite H1, H2.
  - reflexivity.
Qed.

(** X9: Registering the same (type, value) twice in a row: when the first
    registration answers 201, a second one for that key, whatever account
    it names, answers 409 and leaves the table as the first left it. *)
Theorem register_twice
  (nome cpf banco agencia conta nome' cpf' banco' agencia' conta' type value now now'
     : jsstring) (tbl : Table.t) :
  status (fst (run now (post_register validateUUID
                          (registration nome cpf banco agencia conta type value)) tbl))
    = 201%Z ->
  first_failure validateUUID
    (registration nome' cpf' banco' agencia' conta' type value) = None ->
  run now' (post_register validateUUID
              (registration nome' cpf' banco' agencia' conta' type value))
      (snd (run now (post_register validateUUID
                       (registration nome cpf banco agencia conta type value)) tbl)) =
  (reply 409 (error_body (lit "Chave PIX (" ++ type ++ lit ") já registrada")),
   snd (run now (post_register validateUUID
                   (registration nome cpf banco agencia conta type value)) tbl)).
Proof.
  intros H201 Hvalid'.
  rewrite (post_register_expected validateUUID
             (registration nome' cpf' banco' agencia' conta' type value)).
  unfold expected_handler at 1. rewrite Hvalid'.
  rewrite post_register_expected in *. unfold expected_handler in *.
  destruct (first_failure validateUUID
              (registration nome cpf banco agencia conta type value));
    [simpl in H201; discriminate|].
  cbn [run db_run account_member pix_member member_of registration
       Request.accountInfo Request.pixInfo Request.to_string Request.nome Request.cpf
       Request.banco Request.agencia Request.conta Request.type Request.value] in *.
  destruct (existsb (Table.same_text_key type value) (Table.rows tbl)) eqn:E.
  - cbn [fst register_cb] in H201.
    destruct (includes unique_violation _); simpl in H201; discriminate.
  - cbn [snd Table.rows].
    assert (existsb (Table.same_text_key type value)
              (Table.rows tbl ++
               [{| Table.id := Table.next_id tbl; Table.pix_type := to_text type;
                   Table.pix_value := to_text value; Table.nome := to_text nome;
                   Table.cpf := to_text cpf; Table.banco := to_text banco;
                   Table.agencia := to_text agencia; Table.conta := to_text conta;
                   Table.created_at := now |}]) = true) as E'.
    { rewrite existsb_app. cbn [existsb].
      match goal with
      | |- context [Table.same_text_key type value ?r] =>
          rewrite (@same_text_of_key type value r (or_intror eq_refl))
      end.
      rewrite orb_true_r. reflexivity. }
    rewrite E'. cbn [register_cb].
    replace (includes unique_violation (lit "UNIQUE constraint failed")) with true
      by (vm_compute; reflexivity).
    reflexivity.
Qed.

(** X10: A registration (its members JSON strings), whatever it answers,
    does not disturb the other keys: the lookup of a (type, value) other
    than the text of the key in the body answers after it what it
    answered before. *)
Theorem register_keeps_other_keys (body : Request.body) (type' value' now now' : jsstring)
  (tbl : Table.t) :
  (type', value') <> (to_text (pix_member Request.type body),
                      to_text (pix_member Request.value body)) ->
  fst (run now' (get_record type' value')
           (snd (run now (post_register validateUUID body) tbl))) =
  fst (run now' (get_record type' value') tbl).
Proof.
  intros Hne. rewrite post_register_expected. unfold expected_handler.
  destruct (first_failure validateUUID body); [reflexivity|].
  cbn [run db_run].
  destruct (existsb _ (Table.rows tbl)); [reflexivity|].
  cbn [run db_get get_record fst snd Table.rows].
  rewrite find_other_key_appended; [reflexivity|].
  unfold Table.key. cbn [Table.pix_type Table.pix_value]. congruence.
Qed.

End RegistrationFacts.

Lemma register_new_key_witness :
  fst (run Sample.later (post_register Sample.uuid_never Demo.bob) Sample.one_row) =
  reply 201 (JObj [
     member "id" (JNum 2);
     member "accountInfo" (JObj [
       member "nome" (JStr (lit "Bob"));
       member "cpf" (JStr (lit "98765432100"));
       member "banco" (JStr (lit "237"));
       member "agencia" (JStr (lit "0002"));
       member "conta" (JStr (lit "99-1"))]);
     member "pixInfo" (JObj [
       member "type" (JStr (lit "cnpj"));
       member "value" (JStr (lit "12345678000199"))]);
     member "message" (JStr (lit "Registro criado com sucesso"))]).
Proof.
  unfold Demo.bob. rewrite (@register_new_key Sample.uuid_never).
  - reflexivity.
  - vm_compute. reflexivity.
  - intros r [<-|[]] H. vm_compute in H. discriminate H.
Defined.

Lemma register_twice_witness :
  status (fst (run Sample.later (post_register Sample.uuid_never Demo.bob)
                   (snd (run Sample.at_noon (post_register Sample.uuid_never Demo.bob)
                             Table.empty)))) = 409%Z.
Proof.
  unfold Demo.bob. rewrite (@register_twice Sample.uuid_never).
  - reflexivity.
  - vm_compute. reflexivity.
  - vm_compute. reflexivity.
Defined.

Lemma register_keeps_other_keys_witness :
  fst (run Sample.later (get_record (lit "email") (lit "ana@example.com"))
           (snd (run Sample.later (post_register Sample.uuid_never Demo.bob)
                     Sample.one_row))) =
  fst (run Sample.later (get_record (lit "email") (lit "ana@example.com")) Sample.one_row).
Proof.
  apply (@register_keeps_other_keys Sample.uuid_never). intros H. vm_compute in H. discriminate H.
Defined.

(** ** Further facts: what every reachable table satisfies *)

Lemma NoDup_map_snoc {A B} (f : A -> B) (l : list A) (x : A) :
  NoDup (map f l) -> ~ In (f x) (map f l) -> NoDup (map f (l ++ [x])).
Proof.
  intros Hnd Hnotin. rewrite map_app. simpl.
  induction (map f l) as [|k ks IH]; simpl.
  - constructor; [intros []|constructor].
  - inversion Hnd as [|k' ks' Hk Hks]; subst.
    constructor.
    + rewrite in_app_iff. simpl. intros [H|[H|[]]]; [contradiction|].
      apply Hnotin. left. congruence.
    + apply IH; [assumption|]. intro H. apply Hnotin. right. assumption.
Qed.

Lemma filter_split_length {A} (g : A -> bool) (l : list A) :
  (List.length (filter g l) + List.length (filter (fun x => negb (g x)) l))%nat
  = List.length l.
Proof.
  induction l as [|x l IH]; simpl; [reflexivity|].
  destruct (g x); simpl; lia.
Qed.

Lemma ids_ok_appended (tbl : Table.t) (r : Table.row) :
  ids_ok tbl -> Table.id r = Table.next_id tbl ->
  ids_ok {| Table.rows := Table.rows tbl ++ [r]; Table.seq := Table.next_id tbl |}.
Proof.
  intros (Hnd & Hall & Hseq) Hid.
  destruct (next_id_above tbl) as [Hgt Hids].
  unfold ids_ok. cbn [Table.rows Table.seq]. repeat split.
  - apply NoDup_map_snoc; [assumption|].
    rewrite in_map_iff. intros (x & Hx & Hin).
    rewrite Forall_forall in Hids. specialize (Hids x Hin). lia.
  - rewrite Forall_app. split.
    + eapply Forall_impl; [|exact Hall]. simpl. intros; lia.
    + constructor; [lia | constructor].
  - lia.
Qed.

Lemma ids_ok_without type value (tbl : Table.t) :
  ids_ok tbl -> ids_ok (without type value tbl).
Proof.
  intros (Hnd & Hall & Hseq). unfold ids_ok, without. cbn [Table.rows Table.seq].
  repeat split; [now apply NoDup_map_filter | now apply Forall_filter_keep | assumption].
Qed.

Section Invariants.

Variable validateUUID : jsstring -> bool.

Lemma valid_type_well_formed type : In type validTypes -> to_text type = type.
Proof.
  unfold validTypes. cbn [In].
  intros [<-|[<-|[<-|[<-|[<-|[]]]]]]; reflexivity.
Qed.

Lemma inserted_row_valid body now i :
  first_failure validateUUID body = None ->
  row_valid validateUUID
    {| Table.id := i;
       Table.pix_type := to_text (pix_member Request.type body);
       Table.pix_value := to_text (pix_member Request.value body);
       Table.nome := to_text (account_member Request.nome body);
       Table.cpf := to_text (account_member Request.cpf body);
       Table.banco := to_text (account_member Request.banco body);
       Table.agencia := to_text (account_member Request.agencia body);
       Table.conta := to_text (account_member Request.conta body);
       Table.created_at := now |}.
Proof.
  intros H. pose proof (first_failure_recognized validateUUID _ H) as Hty.
  apply first_failure_None in H.
  destruct H as (H1 & H2 & H3 & H4 & H5 & H6 & H7 & H8 & H9).
  assert (to_text (account_member Request.cpf body) = account_member Request.cpf body) as Hcpf.
  { apply digits_well_formed. apply digits_exactly in H8. tauto. }
  unfold row_valid, well_formed.
  cbn [Table.nome Table.cpf Table.banco Table.agencia Table.conta
       Table.pix_type Table.pix_value].
  rewrite !to_text_nonempty, !to_text_idempotent, Hcpf, (@valid_type_well_formed _ Hty).
  repeat split; try assumption.
  exists (pix_member Request.value body). split; [reflexivity | assumption].
Qed.

Lemma serve_keeps_invariants now rq tbl :
  NoDup (map Table.key (Table.rows tbl)) /\ ids_ok tbl /\
  Forall (row_valid validateUUID) (Table.rows tbl) ->
  NoDup (map Table.key (Table.rows (snd (run now (serve validateUUID rq) tbl)))) /\
  ids_ok (snd (run now (serve validateUUID rq) tbl)) /\
  Forall (row_valid validateUUID)
         (Table.rows (snd (run now (serve validateUUID rq) tbl))).
Proof.
  intros (Hk & Hi & Hv).
  split; [now apply run_keeps_keys_unique|].
  destruct rq as [type value | body | type value]; cbn [serve].
  - cbn [run get_record db_get snd]. auto.
  - rewrite post_register_expected. unfold expected_handler.
    destruct (first_failure validateUUID body) eqn:F; [cbn; auto|].
    cbn [run db_run].
    destruct (existsb _ (Table.rows tbl)); cbn [snd Table.rows]; [auto|].
    split.
    + now apply ids_ok_appended.
    + apply Forall_app. split; [assumption|].
      constructor; [|constructor].
      apply (inserted_row_valid body now (Table.next_id tbl) F).
  - unfold delete_record.
    destruct (array_includes validTypes type); cbn [negb]; [|cbn; auto].
    cbn [run db_run snd]. split.
    + now apply ids_ok_without.
    + now apply Forall_filter_keep.
Qed.

Lemma reachable_invariants tbl :
  reachable validateUUID tbl ->
  NoDup (map Table.key (Table.rows tbl)) /\ ids_ok tbl /\
  Forall (row_valid validateUUID) (Table.rows tbl).
Proof.
  induction 1 as [|now rq tbl Hreach IH].
  - repeat split; try constructor. cbn. lia.
  - now apply serve_keeps_invariants.
Qed.

(** X11: In every reachable table the primary keys are pairwise different and
    positive, and none exceeds the largest key handed out so far. *)
Theorem reachable_ids_ok (tbl : Table.t) :
  reachable validateUUID tbl -> ids_ok tbl.
Proof. intros H. apply reachable_invariants in H. tauto. Qed.

(** X12: Every row of a table reachable through registrations whose
    members are JSON strings went through the registration checks: its
    columns are non-empty, its cpf has eleven digits, its type is one of
    the five recognized ones, and its value is the text of a string that
    the validator of that type accepted; type and value hold no unpaired
    surrogate. *)
Theorem reachable_rows_valid (tbl : Table.t) (r : Table.row) :
  reachable validateUUID tbl -> In r (Table.rows tbl) ->
  nonempty (Table.nome r) = true /\ nonempty (Table.banco r) = true /\
  nonempty (Table.agencia r) = true /\ nonempty (Table.conta r) = true /\
  nonempty (Table.pix_value r) = true /\
  validateCPF (Table.cpf r) = true /\
  In (Table.pix_type r) validTypes /\
  (exists v, Table.pix_value r = to_text v /\
             switch_type validateUUID (Table.pix_type r) v = Some true) /\
  well_formed (Table.pix_type r) /\ well_formed (Table.pix_value r).
Proof.
  intros Hreach Hin. apply reachable_invariants in Hreach.
  destruct Hreach as (_ & _ & Hv).
  rewrite Forall_forall in Hv. exact (Hv r Hin).
Qed.

(** X13: Every row of a reachable table is found again by its key: the lookup
    of (pix_type, pix_value) answers 200 with that very row. *)
Theorem stored_row_retrievable (tbl : Table.t) (r : Table.row) (now : jsstring) :
  reachable validateUUID tbl -> In r (Table.rows tbl) ->
  run now (get_record (Table.pix_type r) (Table.pix_value r)) tbl = (found r, tbl).
Proof.
  intros Hreach Hin. apply reachable_invariants in Hreach.
  destruct Hreach as (Hk & _ & _).
  cbn [run get_record db_get]. now rewrite (@find_unique _ _ Hk Hin).
Qed.

(** X14: Every row of a reachable table can be deleted through its key: the
    type guard lets it through, the answer is 200 with deletedCount 1, the
    row is gone and the table holds one row fewer. *)
Theorem stored_row_deletable (tbl : Table.t) (r : Table.row) (now : jsstring) :
  reachable validateUUID tbl -> In r (Table.rows tbl) ->
  run now (delete_record (Table.pix_type r) (Table.pix_value r)) tbl =
  (reply 200 (JObj [
     member "message" (JStr (lit "Registro excluído com sucesso"));
     member "deletedCount" (JNum 1)]),
   without (Table.pix_type r) (Table.pix_value r) tbl) /\
  ~ In r (Table.rows (without (Table.pix_type r) (Table.pix_value r) tbl)) /\
  S (List.length (Table.rows (without (Table.pix_type r) (Table.pix_value r) tbl)))
    = List.length (Table.rows tbl).
Proof.
  intros Hreach Hin.
  apply reachable_invariants in Hreach. destruct Hreach as (Hk & _ & Hv).
  rewrite Forall_forall in Hv.
  destruct (Hv r Hin) as (_ & _ & _ & _ & _ & _ & Hty & _).
  assert (In (Table.pix_type r, Table.pix_value r) (map Table.key (Table.rows tbl))) as HIn
    by (change (In (Table.key r) (map Table.key (Table.rows tbl))); now apply in_map).
  pose proof (@one_row_per_key _ _ _ Hk HIn) as Hone.
  repeat split.
  - unfold delete_record. apply array_includes_In in Hty. rewrite Hty.
    cbn [negb run db_run delete_record_cb changes]. rewrite Hone. reflexivity.
  - cbn [without Table.rows]. intros H. apply filter_In in H. destruct H as [_ H].
    assert (Table.has_key (Table.pix_type r) (Table.pix_value r) r = true) as E
      by (now apply has_key_spec).
    rewrite E in H. discriminate H.
  - cbn [without Table.rows].
    pose proof (filter_split_length
                  (Table.has_key (Table.pix_type r) (Table.pix_value r))
                  (Table.rows tbl)) as Hlen.
    lia.
Qed.

Lemma key_absent_without type value rows :
  Forall (row_valid validateUUID) rows ->
  well_formed type -> well_formed value ->
  existsb (Table.same_text_key type value)
          (filter (fun r => negb (Table.has_key type value r)) rows) = false.
Proof.
  unfold well_formed. intros Hv Ht Hval.
  induction Hv as [|x rows Hx Hrows IH]; cbn [filter]; [reflexivity|].
  destruct (Table.has_key type value x) eqn:E; cbn [negb existsb]; [assumption|].
  rewrite IH, orb_false_r.
  destruct Hx as (_ & _ & _ & _ & _ & _ & _ & _ & Hxt & Hxv).
  unfold well_formed in Hxt, Hxv.
  unfold Table.same_text_key. rewrite Hxt, Hxv, Ht, Hval. exact E.
Qed.

(** X15: A key that was deleted can be registered again, and the new row gets
    a primary key larger than the one of the deleted row: keys are not
    handed out twice. *)
Theorem reregister_after_delete
  (nome cpf banco agencia conta type value now now' : jsstring)
  (tbl : Table.t) (r : Table.row) :
  reachable validateUUID tbl ->
  In r (Table.rows tbl) -> Table.key r = (type, value) ->
  first_failure validateUUID (registration nome cpf banco agencia conta type value) = None ->
  exists i,
    (Table.id r < i)%Z /\
    fst (run now' (post_register validateUUID
                     (registration nome cpf banco agencia conta type value))
             (snd (run now (delete_record type value) tbl))) =
    reply 201 (JObj [
      member "id" (JNum i);
      member "accountInfo" (JObj [
        member "nome" (JStr nome);
        member "cpf" (JStr cpf);
        member "banco" (JStr banco);
        member "agencia" (JStr agencia);
        member "conta" (JStr conta)]);
      member "pixInfo" (JObj [
        member "type" (JStr type);
        member "value" (JStr value)]);
      member "message" (JStr (lit "Registro criado com sucesso"))]).
Proof.
  intros Hreach Hin Hkey Hvalid.
  apply reachable_invariants in Hreach. destruct Hreach as (_ & (_ & Hall & _) & Hv).
  assert (well_formed type /\ well_formed value) as [Hwt Hwv].
  { rewrite Forall_forall in Hv.
    destruct (Hv r Hin) as (_ & _ & _ & _ & _ & _ & _ & _ & Hxt & Hxv).
    unfold Table.key in Hkey. injection Hkey as <- <-. auto. }
  pose proof (first_failure_recognized validateUUID _ Hvalid) as Hty.
  cbn [pix_member member_of registration Request.pixInfo Request.type
       Request.to_string] in Hty.
  apply array_includes_In in Hty.
  unfold delete_record. rewrite Hty. cbn [negb run db_run snd].
  exists (Table.next_id (without type value tbl)). split.
  - destruct (next_id_above (without type value tbl)) as [Hgt _].
    rewrite Forall_forall in Hall. specialize (Hall r Hin).
    cbn [without Table.seq] in Hgt. lia.
  - rewrite post_register_expected. unfold expected_handler. rewrite Hvalid.
    cbn [run db_run account_member pix_member member_of registration
         Request.accountInfo Request.pixInfo Request.to_string Request.nome Request.cpf
         Request.banco Request.agencia Request.conta Request.type Request.value
         Table.rows].
    rewrite (key_absent_without Hv Hwt Hwv). reflexivity.
Qed.

End Invariants.

Lemma one_row_reachable : reachable Sample.uuid_never Sample.one_row.
Proof.
  change Sample.one_row
    with (snd (run Sample.at_noon (serve Sample.uuid_never (Register Sample.ana))
                   Table.empty)).
  apply reach_serve, reach_empty.
Qed.

Lemma reachable_ids_ok_witness : ids_ok Sample.one_row.
Proof. apply (@reachable_ids_ok Sample.uuid_never), one_row_reachable. Defined.

Lemma reachable_rows_valid_witness :
  validateCPF (Table.cpf Sample.ana_row) = true /\
  In (Table.pix_type Sample.ana_row) validTypes.
Proof.
  destruct (@reachable_rows_valid Sample.uuid_never Sample.one_row Sample.ana_row
              one_row_reachable (or_introl eq_refl))
    as (_ & _ & _ & _ & _ & Hc & Ht & _).
  exact (conj Hc Ht).
Defined.

Lemma stored_row_retrievable_witness :
  run Sample.later (get_record (lit "email") (lit "ana@example.com")) Sample.one_row =
  (found Sample.ana_row, Sample.one_row).
Proof.
  apply (@stored_row_retrievable Sample.uuid_never Sample.one_row Sample.ana_row).
  - exact one_row_reachable.
  - left. reflexivity.
Defined.

Lemma stored_row_deletable_witness :
  fst (run Sample.later (delete_record (lit "email") (lit "ana@example.com"))
           Sample.one_row) =
  reply 200 (JObj [
     member "message" (JStr (lit "Registro excluído com sucesso"));
     member "deletedCount" (JNum 1)]).
Proof.
  destruct (@stored_row_deletable Sample.uuid_never Sample.one_row Sample.ana_row
              Sample.later one_row_reachable (or_introl eq_refl)) as [H _].
  exact (f_equal fst H).
Defined.

Lemma reregister_after_delete_witness :
  exists i,
    (1 < i)%Z /\
    fst (run Sample.later (post_register Sample.uuid_never Sample.ana)
             (snd (run Sample.later (delete_record (lit "email") (lit "ana@example.com"))
                       Sample.one_row))) =
    reply 201 (JObj [
      member "id" (JNum i);
      member "accountInfo" (JObj [
        member "nome" (JStr (lit "Ana"));
        member "cpf" (JStr (lit "12345678901"));
        member "banco" (JStr (lit "001"));
        member "agencia" (JStr (lit "0001"));
        member "conta" (JStr (lit "12345-6"))]);
      member "pixInfo" (JObj [
        member "type" (JStr (lit "email"));
        member "value" (JStr (lit "ana@example.com"))]);
      member "message" (JStr (lit "Registro criado com sucesso"))]).
Proof.
  apply (@reregister_after_delete Sample.uuid_never _ _ _ _ _ _ _ _ _ Sample.one_row
           Sample.ana_row).
  - exact one_row_reachable.
  - left. reflexivity.
  - reflexivity.
  - vm_compute. reflexivity.
Defined.

(** ** Further facts: authentication and routing *)

Lemma find_bank_none k bs :
  ~ In k (map api_key bs) ->
  find (fun b => JsString.eqb (api_key b) k) bs = None.
Proof.
  induction bs as [|b bs IH]; simpl; intros H; [reflexivity|].
  destruct (JsString.eqb (api_key b) k) eqn:E.
  - apply eqb_eq in E. exfalso. apply H. left. assumption.
  - apply IH. intro Hin. apply H. right. assumption.
Qed.

Lemma find_bank_some k bs :
  In k (map api_key bs) ->
  exists b, find (fun b => JsString.eqb (api_key b) k) bs = Some b.
Proof.
  induction bs as [|b bs IH]; simpl; intros H; [contradiction|].
  destruct (JsString.eqb (api_key b) k) eqn:E; [eauto|].
  destruct H as [H|H]; [|auto].
  apply eqb_neq_false in E; [contradiction | assumption].
Qed.

Lemma database_eta (db : database) :
  {| banks := banks db; pix_records := pix_records db |} = db.
Proof. destruct db; reflexivity. Qed.

Lemma run_handler_banks now h db : banks (snd (run_handler now h db)) = banks db.
Proof.
  unfold run_handler. destruct (pix_records db) as [tbl|]; [|reflexivity].
  destruct (run now h tbl). reflexivity.
Qed.

Section AppFacts.

Variable validateUUID : jsstring -> bool.

Lemma authenticate_known now apiKey next db bs :
  Request.truthy apiKey = true ->
  banks db = Some bs ->
  In (Request.to_string apiKey) (map api_key bs) ->
  exists id, run_program now (authenticateApiKey apiKey next) db = run_program now (next id) db.
Proof.
  intros Hk Hb Hin. unfold authenticateApiKey. rewrite Hk.
  cbn [negb run_program]. unfold banks_get. rewrite Hb.
  destruct (find_bank_some _ _ Hin) as [b ->]. cbn [option_map]. eauto.
Qed.

(** X16: A request to a path behind the middleware that carries no x-api-key
    header, or an empty one, is answered 401 before anything is read from
    the database, and the database is unchanged. *)
Theorem missing_key_unauthorized (timestamp : jsstring) (rq : http_request) :
  behind_auth (target rq) = true ->
  Request.truthy (x_api_key rq) = false ->
  app validateUUID timestamp rq =
    Done (reply 401 (error_body (lit "API Key não fornecida"))) /\
  (forall now db,
     run_program now (app validateUUID timestamp rq) db =
     (reply 401 (error_body (lit "API Key não fornecida")), db)).
Proof.
  intros Hb Hk. unfold app, authenticateApiKey. rewrite Hb, Hk. split; reflexivity.
Qed.

(** X17: A request behind the middleware whose key is held by no bank is
    answered 403; its handler does not run and the database is
    unchanged. *)
Theorem unknown_key_forbidden (timestamp now : jsstring) (rq : http_request)
  (db : database) (bs : list bank) :
  behind_auth (target rq) = true ->
  Request.truthy (x_api_key rq) = true ->
  banks db = Some bs ->
  ~ In (Request.to_string (x_api_key rq)) (map api_key bs) ->
  run_program now (app validateUUID timestamp rq) db =
  (reply 403 (error_body (lit "API Key inválida")), db).
Proof.
  intros Hb Hk Hbanks Hnot. unfold app, authenticateApiKey. rewrite Hb, Hk.
  cbn [negb run_program]. unfold banks_get. rewrite Hbanks.
  rewrite (find_bank_none _ _ Hnot). reflexivity.
Qed.

(** X18: A request behind the middleware whose key is held by a bank reaches
    its handler: the answer and the database are those of the handler run
    on its own. *)
Theorem known_key_passes (timestamp now : jsstring) (rq : http_request)
  (db : database) (bs : list bank) :
  behind_auth (target rq) = true ->
  Request.truthy (x_api_key rq) = true ->
  banks db = Some bs ->
  In (Request.to_string (x_api_key rq)) (map api_key bs) ->
  run_program now (app validateUUID timestamp rq) db =
  run_handler now (route_handler validateUUID timestamp (target rq)) db.
Proof.
  intros Hb Hk Hbanks Hin. unfold app. rewrite Hb.
  destruct (authenticate_known now (x_api_key rq)
              (fun _ => Records (route_handler validateUUID timestamp (target rq)))
              db Hk Hbanks Hin) as [id ->].
  reflexivity.
Qed.

(** X19: While the banks table does not exist, a request behind the middleware
    that carries a key is answered 500 by the middleware, and the
    database is unchanged. *)
Theorem auth_without_banks_table (timestamp now : jsstring) (rq : http_request)
  (db : database) :
  behind_auth (target rq) = true ->
  Request.truthy (x_api_key rq) = true ->
  banks db = None ->
  run_program now (app validateUUID timestamp rq) db =
  (reply 500 (error_body (lit "Erro interno na autenticação")), db).
Proof.
  intros Hb Hk Hbanks. unfold app, authenticateApiKey. rewrite Hb, Hk.
  cbn [negb run_program]. unfold banks_get. rewrite Hbanks. reflexivity.
Qed.

(** X20: No request changes the banks table: whatever the route, the key and
    the state of the database, the banks are afterwards what they were. *)
Theorem banks_never_change (timestamp now : jsstring) (rq : http_request) (db : database) :
  banks (snd (run_program now (app validateUUID timestamp rq) db)) = banks db.
Proof.
  unfold app. destruct (behind_auth (target rq)).
  - unfold authenticateApiKey. destruct (Request.truthy (x_api_key rq)); [|reflexivity].
    cbn [negb run_program]. unfold banks_get.
    destruct (banks db) as [bs|] eqn:Hb; [|cbn; assumption].
    destruct (find _ bs); cbn [option_map run_program snd]; [|assumption].
    rewrite run_handler_banks. assumption.
  - cbn [run_program]. apply run_handler_banks.
Qed.

(** X21: GET /status is answered 200 with the status text and the time stamp
    whatever key the request carries and whatever the state of the
    database, tables missing included; the database is unchanged. *)
Theorem status_always_open (timestamp now : jsstring) (k : option jsstring) (db : database) :
  run_program now (app validateUUID timestamp {| x_api_key := k; target := GetStatus |}) db =
  (reply 200 (JObj [
     member "status" (JStr (lit "API funcionando"));
     member "timestamp" (JStr timestamp)]), db).
Proof.
  unfold app. cbn [target behind_auth run_program route_handler].
  unfold run_handler, get_status. destruct db as [bs [tbl|]]; reflexivity.
Qed.

(** X22: While the pix_records table does not exist, a request whose handler
    reaches the database is answered 500 with the message of the database
    as its error, and the database is unchanged. *)
Theorem missing_table_internal_error (timestamp now : jsstring) (r : route) (db : database) :
  pix_records db = None ->
  ~ no_store_access (route_handler validateUUID timestamp r) ->
  run_handler now (route_handler validateUUID timestamp r) db =
  (reply 500 (error_body (no_such_table (lit "pix_records"))), db).
Proof.
  intros Hp Hreach. unfold run_handler. rewrite Hp.
  destruct (route_handler validateUUID timestamp r) as [resp | sql cb | sql cb] eqn:E.
  - exfalso. apply Hreach. exact I.
  - destruct r as [|type value|body|type value]; cbn [route_handler] in E;
      try discriminate E.
    + unfold get_record in E. injection E as _ <-. reflexivity.
    + rewrite post_register_expected in E. unfold expected_handler in E.
      destruct (first_failure validateUUID body); discriminate E.
    + unfold delete_record in E.
      destruct (negb (array_includes validTypes type)); discriminate E.
  - destruct r as [|type value|body|type value]; cbn [route_handler] in E;
      try discriminate E.
    + rewrite post_register_expected in E. unfold expected_handler in E.
      destruct (first_failure validateUUID body); [discriminate E|].
      injection E as _ <-. cbn [register_cb].
      replace (includes (no_such_table (lit "pix_records")) (lit "UNIQUE constraint failed"))
        with false by (vm_compute; reflexivity).
      reflexivity.
    + unfold delete_record in E.
      destruct (negb (array_includes validTypes type)); [discriminate E|].
      injection E as _ <-. reflexivity.
Qed.

End AppFacts.

Lemma missing_key_unauthorized_witness :
  run_program Sample.later
    (app Sample.uuid_never Sample.later
         {| x_api_key := None;
            target := DeleteRecord (lit "email") (lit "ana@example.com") |})
    Demo.seeded =
  (reply 401 (error_body (lit "API Key não fornecida")), Demo.seeded).
Proof.
  apply (@missing_key_unauthorized Sample.uuid_never); reflexivity.
Defined.

Lemma unknown_key_forbidden_witness :
  run_program Sample.later
    (app Sample.uuid_never Sample.later
         {| x_api_key := Some (lit "guess");
            target := DeleteRecord (lit "email") (lit "ana@example.com") |})
    Demo.seeded =
  (reply 403 (error_body (lit "API Key inválida")), Demo.seeded).
Proof.
  apply (@unknown_key_forbidden Sample.uuid_never) with (bs := match banks Demo.seeded with
                                                              | Some bs => bs
                                                              | None => []
                                                              end);
    try reflexivity.
  simpl. intros [H|[]]. vm_compute in H. discriminate H.
Defined.

Lemma known_key_passes_witness :
  run_program Sample.later
    (app Sample.uuid_never Sample.later
         {| x_api_key := Some Demo.key;
            target := GetRecord (lit "email") (lit "ana@example.com") |})
    Demo.seeded =
  (found Sample.ana_row, Demo.seeded).
Proof.
  rewrite (@known_key_passes Sample.uuid_never) with (bs := match banks Demo.seeded with
                                                           | Some bs => bs
                                                           | None => []
                                                           end);
    try reflexivity.
  left. reflexivity.
Defined.

Lemma missing_table_internal_error_witness :
  run_handler Sample.later
    (route_handler Sample.uuid_never Sample.later (PostRegister Sample.ana)) fresh =
  (reply 500 (error_body (no_such_table (lit "pix_records"))), fresh).
Proof.
  apply (@missing_table_internal_error Sample.uuid_never); [reflexivity|].
  vm_compute. exact (fun H => H).
Defined.

Lemma auth_without_banks_table_witness :
  run_program Sample.later
    (app Sample.uuid_never Sample.later
         {| x_api_key := Some Demo.key; target := PostRegister Sample.ana |})
    fresh =
  (reply 500 (error_body (lit "Erro interno na autenticação")), fresh).
Proof.
  apply (@auth_without_banks_table Sample.uuid_never); reflexivity.
Defined.

(** ** Further facts: start-up *)

Lemma bootstrap_with_key_issued k :
  nonempty k = true ->
  issued (bootstrap None (Some k)) = [RunCreateBanks; RunCreatePixRecords; RunSeedBank k].
Proof.
  intros Hk. unfold bootstrap, issued. cbn [Request.truthy]. rewrite Hk. reflexivity.
Qed.

Lemma bootstrap_with_key_executed k :
  nonempty k = true ->
  executed (bootstrap None (Some k)) = [RunCreateBanks; RunCreatePixRecords; RunSeedBank k].
Proof.
  intros Hk. unfold executed. rewrite (bootstrap_with_key_issued k Hk).
  unfold bootstrap. cbn [Request.truthy]. rewrite Hk. reflexivity.
Qed.

Lemma exists_bank_In k bs :
  existsb (fun b => JsString.eqb (api_key b) k) bs = true <-> In k (map api_key bs).
Proof.
  rewrite existsb_exists, in_map_iff. split.
  - intros (b & Hin & E). apply eqb_eq in E. eauto.
  - intros (b & E & Hin). exists b. split; [assumption|]. apply eqb_eq, E.
Qed.

(** After the three start-up statements have run, the banks table exists
    and some bank holds the key. *)
Lemma startup_seeds k db :
  nonempty k = true ->
  exists bs, banks (startup 3 (bootstrap None (Some k)) db) = Some bs /\
             In k (map api_key bs) /\
             exists t, pix_records (startup 3 (bootstrap None (Some k)) db) = Some t.
Proof.
  intros Hk. unfold startup. rewrite (bootstrap_with_key_executed k Hk).
  cbn [firstn fold_left exec banks pix_records].
  destruct (existsb _ _) eqn:E; cbn [banks pix_records].
  - eexists. split; [reflexivity|]. split; [now apply exists_bank_In | eauto].
  - eexists. split; [reflexivity|]. split; [|eauto].
    rewrite map_app, in_app_iff. right. left. reflexivity.
Qed.

(** X23: Starting the process again changes nothing: once the three start-up
    statements have run with a key, running them a second time with the
    same key leaves the database as it is. *)
Theorem startup_idempotent (k : jsstring) (db : database) :
  nonempty k = true ->
  startup 3 (bootstrap None (Some k)) (startup 3 (bootstrap None (Some k)) db) =
  startup 3 (bootstrap None (Some k)) db.
Proof.
  intros Hk.
  destruct (startup_seeds k db Hk) as (bs & Hb & Hin & t & Ht).
  revert Hb Ht. generalize (startup 3 (bootstrap None (Some k)) db). intros db' Hb Ht.
  unfold startup. rewrite (bootstrap_with_key_executed k Hk).
  cbn [firstn fold_left exec banks pix_records]. rewrite Hb, Ht.
  apply exists_bank_In in Hin. rewrite Hin.
  rewrite <- Hb, <- Ht. apply database_eta.
Qed.

Lemma startup_idempotent_witness :
  startup 3 (bootstrap None (Some Demo.key))
          (startup 3 (bootstrap None (Some Demo.key)) fresh) =
  startup 3 (bootstrap None (Some Demo.key)) fresh.
Proof. apply startup_idempotent. reflexivity. Defined.

Lemma exec_keeps_rows a db :
  (forall t, pix_records db = Some t -> pix_records (exec a db) = Some t) /\
  (forall bs, banks db = Some bs ->
     exists extra, banks (exec a db) = Some (bs ++ extra)) /\
  (api_keys_unique db -> api_keys_unique (exec a db)).
Proof.
  assert (forall bs, banks db = Some bs -> exists extra, banks db = Some (bs ++ extra)) as Same
    by (intros bs Hb; exists []; now rewrite app_nil_r).
  unfold api_keys_unique.
  destruct a as [msg|msg| | |k|code]; cbn [exec].
  - auto.
  - auto.
  - cbn [banks pix_records]. repeat split.
    + auto.
    + intros bs ->. exists []. now rewrite app_nil_r.
    + destruct (banks db); [auto | constructor].
  - cbn [banks pix_records]. repeat split.
    + now intros t ->.
    + assumption.
    + auto.
  - destruct (banks db) as [bs|] eqn:Hb; [|rewrite Hb; auto].
    destruct (existsb _ bs) eqn:E; [rewrite Hb; auto|].
    cbn [banks pix_records]. repeat split.
    + auto.
    + intros bs' Hb'. injection Hb' as <-. eauto.
    + intros Hnd. apply NoDup_map_snoc; [assumption|]. cbn [api_key].
      intros Hin. apply exists_bank_In in Hin. rewrite E in Hin. discriminate Hin.
  - auto.
Qed.

Lemma fold_exec_keeps_rows acts : forall db,
  (forall t, pix_records db = Some t ->
     pix_records (fold_left (fun d a => exec a d) acts db) = Some t) /\
  (forall bs, banks db = Some bs ->
     exists extra, banks (fold_left (fun d a => exec a d) acts db) = Some (bs ++ extra)) /\
  (api_keys_unique db -> api_keys_unique (fold_left (fun d a => exec a d) acts db)).
Proof.
  induction acts as [|a acts IH]; intros db; cbn [fold_left].
  - repeat split; auto. intros bs Hb. exists []. now rewrite app_nil_r.
  - destruct (exec_keeps_rows a db) as (H1 & H2 & H3).
    destruct (IH (exec a db)) as (I1 & I2 & I3).
    repeat split; auto.
    intros bs Hb. destruct (H2 bs Hb) as [e1 He1].
    destruct (I2 _ He1) as [e2 He2]. exists (e1 ++ e2). now rewrite app_assoc.
Qed.

(** X24: Start-up never loses data: however far it gets, and with or without
    a key, an existing pix_records table is left exactly as it was and the
    rows of an existing banks table are kept, in order, with at most new
    rows after them. *)
Theorem startup_keeps_rows (err X_API_KEY : option jsstring) (n : nat) (db : database) :
  (forall t, pix_records db = Some t ->
     pix_records (startup n (bootstrap err X_API_KEY) db) = Some t) /\
  (forall bs, banks db = Some bs ->
     exists extra, banks (startup n (bootstrap err X_API_KEY) db) = Some (bs ++ extra)).
Proof.
  unfold startup.
  destruct (fold_exec_keeps_rows (firstn n (executed (bootstrap err X_API_KEY))) db)
    as (H1 & H2 & _).
  split; assumption.
Qed.

(** X25: The api_key column stays free of duplicates through start-up: the
    seed row is inserted only when no bank holds the key. *)
Theorem startup_keeps_api_keys_unique (err X_API_KEY : option jsstring) (n : nat)
  (db : database) :
  api_keys_unique db -> api_keys_unique (startup n (bootstrap err X_API_KEY) db).
Proof.
  unfold startup.
  destruct (fold_exec_keeps_rows (firstn n (executed (bootstrap err X_API_KEY))) db)
    as (_ & _ & H3).
  exact H3.
Qed.

Lemma startup_keeps_api_keys_unique_witness :
  api_keys_unique (startup 3 (bootstrap None (Some Demo.key)) Demo.seeded).
Proof.
  apply startup_keeps_api_keys_unique. simpl. constructor; [intros []|constructor].
Defined.

(** X26: The process exits during start-up only when the database was opened
    and X_API_KEY is unset or empty, and then with code 1.  When the
    database cannot be opened the callback logs the error, issues no
    statement and does not exit. *)
Theorem bootstrap_exit_iff (err X_API_KEY : option jsstring) :
  (exit_code (bootstrap err X_API_KEY) = Some 1%Z <->
   err = None /\ Request.truthy X_API_KEY = false) /\
  (exit_code (bootstrap err X_API_KEY) = None <->
   err <> None \/ Request.truthy X_API_KEY = true) /\
  (issued (bootstrap err X_API_KEY) = [] <-> err <> None).
Proof.
  unfold bootstrap, issued.
  destruct err as [e|]; [|destruct (Request.truthy X_API_KEY) eqn:K];
    cbn [negb exit_code before_exit filter is_statement];
    repeat split; try discriminate; try tauto; try congruence;
    try (intros [H H']; discriminate);
    try (intros [H|H]; congruence);
    try (intros _; left; discriminate).
Qed.

(** X27: After start-up with a key, a request carrying that key passes the
    middleware: it is answered by its handler. *)
Theorem seeded_key_authenticates (validateUUID : jsstring -> bool)
  (k timestamp now : jsstring) (r : route) (db : database) :
  nonempty k = true ->
  behind_auth r = true ->
  run_program now (app validateUUID timestamp {| x_api_key := Some k; target := r |})
              (startup 3 (bootstrap None (Some k)) db) =
  run_handler now (route_handler validateUUID timestamp r)
              (startup 3 (bootstrap None (Some k)) db).
Proof.
  intros Hk Hb.
  destruct (startup_seeds k db Hk) as (bs & Hbanks & Hin & _).
  unfold app. cbn [target x_api_key]. rewrite Hb.
  destruct (authenticate_known now (Some k)
              (fun _ => Records (route_handler validateUUID timestamp r))
              (startup 3 (bootstrap None (Some k)) db) Hk Hbanks Hin) as [id ->].
  reflexivity.
Qed.

Lemma seeded_key_authenticates_witness :
  fst (run_program Sample.later
         (app Sample.uuid_never Sample.later
              {| x_api_key := Some Demo.key; target := PostRegister Sample.ana |})
         (startup 3 (bootstrap None (Some Demo.key)) fresh)) =
  fst (run Sample.later (post_register Sample.uuid_never Sample.ana) Table.empty).
Proof.
  rewrite (@seeded_key_authenticates Sample.uuid_never); reflexivity.
Defined.
